(** * moq: interface mock generator (pkg/moq/moq.go)

    A shallow embedding of the generation pipeline of [pkg/moq/moq.go]:
    [New] (package selection), [Mock] (interface lookup, signature
    extraction, import tracking) and the [moqTemplate] renderer, followed
    by the properties of the pipeline.

    Conventions.
    - Go strings are byte strings: [string].
    - [map[string]T] is a [gmap string T].  Go leaves the iteration order
      of [range] over a map unspecified; every [range] over a map takes
      its order from a [MapOrder], which may be any permutation.
    - [m.imports] is mutated through the [*Mocker] receiver; the code that
      touches it runs in the state-and-error monad [M].
    - Indices and lengths of tuples are natural numbers: they stay far
      from the bounds of Go's [int].
    - The parser and the type checker ([go/parser], [go/types]) are
      libraries: their results are inputs of the model, and
      [types.TypeString] is modelled on a fragment of the types. *)

From Stdlib Require Import Ascii String List NArith Lia DecimalString
  DecimalNat DecimalFacts.
From stdpp Require Import base option list gmap strings fin_maps.

(* ================================================================== *)
(** * The program *)
(* ================================================================== *)

(** ** Byte strings *)
(* ================================================================== *)

Module Str.

(** Characters with no literal of their own. *)
Definition nl : string := String (ascii_of_nat 10) EmptyString.
Definition tab : string := String (ascii_of_nat 9) EmptyString.
Definition dq : string := String (ascii_of_nat 34) EmptyString.

(** Concatenation of the pieces of a text, in order. *)
Definition cat (pieces : list string) : string :=
  fold_right String.append EmptyString pieces.

(** [len(s) == 0] *)
Definition is_empty (s : string) : bool :=
  match s with EmptyString => true | String _ _ => false end.

(** [s[n:]], defined when [n <= len(s)]; Go panics otherwise. *)
Fixpoint slice_from (n : nat) (s : string) : option string :=
  match n, s with
  | O, _ => Some s
  | S _, EmptyString => None
  | S n', String _ s' => slice_from n' s'
  end.

(** [s[0:n]], defined when [n <= len(s)]; Go panics otherwise. *)
Fixpoint slice_to (n : nat) (s : string) : option string :=
  match n, s with
  | O, _ => Some EmptyString
  | S _, EmptyString => None
  | S n', String c s' => option_map (String c) (slice_to n' s')
  end.

(** [strings.Contains(s, sub)] *)
Fixpoint Contains (s sub : string) : bool :=
  String.prefix sub s
  || match s with
     | EmptyString => false
     | String _ s' => Contains s' sub
     end.

(** [strings.Join(elems, sep)] *)
Definition Join (elems : list string) (sep : string) : string :=
  String.concat sep elems.

(** The decimal text of a non-negative integer, as [%d] prints it. *)
Definition decimal (n : nat) : string :=
  NilZero.string_of_uint (Nat.to_uint n).

Definition decimalN (n : N) : string :=
  NilZero.string_of_uint (N.to_uint n).

(** [strings.ToUpper] of a one-byte string.  An ASCII lower-case letter
    becomes its upper-case letter, any other ASCII byte is kept, and a
    byte above 0x7F, which is no valid UTF-8 text by itself, comes back
    as the encoding of U+FFFD. *)
Definition ToUpper1 (c : ascii) : string :=
  let n := nat_of_ascii c in
  if (97 <=? n) && (n <=? 122) then String (ascii_of_nat (n - 32)) EmptyString
  else if n <? 128 then String c EmptyString
  else String (ascii_of_nat 239)
         (String (ascii_of_nat 191) (String (ascii_of_nat 189) EmptyString)).

End Str.

(** [fmt.Sprintf(format, n)] for a format made of literal text and [%d]
    verbs, with the single integer operand [n]: the first [%d] prints
    [n], a later one finds no operand, and an operand that no verb
    consumed is reported at the end.  The two formats of this program are
    ["in%d"] and ["out%d"]. *)
Fixpoint Sprintf_go (format : string) (n : nat) (used : bool) : string :=
  match format with
  | EmptyString =>
      if used then EmptyString
      else "%!(EXTRA int=" +:+ Str.decimal n +:+ ")"
  | String "%"%char (String "d"%char rest) =>
      (if used then "%!d(MISSING)" else Str.decimal n) +:+ Sprintf_go rest n true
  | String c rest => String c (Sprintf_go rest n used)
  end.

Definition Sprintf (format : string) (n : nat) : string :=
  Sprintf_go format n false.

(* ================================================================== *)
(** ** The resolved types of [go/types] *)
(* ================================================================== *)

(** [*types.Package], as far as [Name()] and [Path()] show it. *)
Record Package := { pkg_Name : string; pkg_Path : string }.

Inductive ChanDir := SendRecv | SendOnly | RecvOnly.

(** [types.Type].  [Basic] stands for every type that prints as a fixed
    word with no package in it ([int], [string], [interface{}], ...);
    [Named] with no package is a universe type such as [error].  Function,
    struct and interface literals are outside this fragment. *)
Inductive GoType :=
| Basic (name : string)
| Array (len : N) (elem : GoType)
| Slice (elem : GoType)
| Pointer (elem : GoType)
| Map (key elem : GoType)
| Chan (dir : ChanDir) (elem : GoType)
| Named (pkg : option Package) (name : string).

(** [*types.Var] of a tuple: [Name()] and [Type()]. *)
Record Var := { var_Name : string; var_Type : GoType }.

(** [*types.Signature]: [Params()], [Results()], [Variadic()]. *)
Record Signature := {
  sig_Params : list Var;
  sig_Results : list Var;
  sig_Variadic : bool
}.

(** [types.NewSignature] accepts a variadic signature only when it has a
    last parameter and that parameter is of slice type. *)
Definition sig_wf (sig : Signature) : bool :=
  if sig_Variadic sig then
    match last (sig_Params sig) with
    | Some v => match var_Type v with Slice _ => true | _ => false end
    | None => false
    end
  else true.

(** [*types.Func], a method of a completed interface. *)
Record Func := { func_Name : string; func_Sig : Signature }.

(** [types.Object] found in a package scope: its type, and the method set
    of the underlying type when that is an interface ([types.IsInterface],
    then the completed [types.Interface] under it). *)
Record Object := {
  obj_Type : GoType;
  obj_Iface : option (list Func)
}.

(** A type-checked package: itself, and [Scope()]. *)
Record TPackage := {
  tpkg_Pkg : Package;
  tpkg_Scope : gmap string Object
}.

(** [types.Qualifier].  The qualifier of this program is a method of the
    [Mocker] and updates it, so a qualifier runs over a state [S]. *)
Definition Qualifier (S : Type) := Package -> S -> string * S.

(** The nil qualifier: [writePackage] writes the full path. *)
Definition pathQualifier {S : Type} : Qualifier S :=
  fun pkg st => (pkg_Path pkg, st).

(** [writePackage]: the qualifier's answer and a dot, or nothing when the
    answer is empty. *)
Definition writePackage {S : Type} (qf : Qualifier S) (pkg : Package) (st : S)
  : string * S :=
  let '(s, st') := qf pkg st in
  (if Str.is_empty s then EmptyString else s +:+ ".", st').

(** [types.TypeString(typ, qf)] ([writeType] of go/types/typestring.go):
    the pieces are written left to right, the qualifier being called at
    each named type that has a package. *)
Fixpoint TypeString {S : Type} (typ : GoType) (qf : Qualifier S) (st : S)
  : string * S :=
  match typ with
  | Basic name => (name, st)
  | Array len elem =>
      let '(s, st') := TypeString elem qf st in
      ("[" +:+ Str.decimalN len +:+ "]" +:+ s, st')
  | Slice elem =>
      let '(s, st') := TypeString elem qf st in
      ("[]" +:+ s, st')
  | Pointer elem =>
      let '(s, st') := TypeString elem qf st in
      ("*" +:+ s, st')
  | Map key elem =>
      let '(k, st1) := TypeString key qf st in
      let '(s, st2) := TypeString elem qf st1 in
      ("map[" +:+ k +:+ "]" +:+ s, st2)
  | Chan dir elem =>
      let parens :=
        match dir, elem with
        | SendRecv, Chan RecvOnly _ => true
        | _, _ => false
        end in
      let word :=
        match dir with
        | SendRecv => "chan "
        | SendOnly => "chan<- "
        | RecvOnly => "<-chan "
        end in
      let '(s, st') := TypeString elem qf st in
      (word +:+ (if parens then "(" +:+ s +:+ ")" else s), st')
  | Named None name => (name, st)
  | Named (Some pkg) name =>
      let '(q, st') := writePackage qf pkg st in
      (q +:+ name, st')
  end.

(** [Type.String()]: [TypeString] with the nil qualifier. *)
Definition Type_String (typ : GoType) : string :=
  fst (TypeString typ pathQualifier tt).

(* ================================================================== *)
(** ** Maps and their iteration order *)
(* ================================================================== *)

(** The order in which one run of the program walks its maps. *)
Definition MapOrder := forall A : Type, list A -> list A.

(** Go promises every entry once, in some order. *)
Definition MapOrder_ok (ord : MapOrder) : Prop :=
  forall (A : Type) (l : list A), ord A l ≡ₚ l.

Definition ascending : MapOrder := fun _ l => l.
Definition descending : MapOrder := fun _ l => reverse l.

(** [for k, v := range m] *)
Definition range_map {V : Type} (ord : MapOrder) (m : gmap string V)
  : list (string * V) :=
  ord _ (map_to_list m).

(* ================================================================== *)
(** ** The Mocker *)
(* ================================================================== *)

Inductive Error :=
| ErrParseDir (msg : string)         (* the error of parser.ParseDir *)
| ErrNoPackageName                   (* "failed to determine package name" *)
| ErrNoInterface                     (* "must specify one interface" *)
| ErrCheck (msg : string)            (* the error of conf.Check *)
| ErrCannotFind (n : string)         (* "cannot find interface %s" *)
| ErrNotInterface (n typ : string)   (* "%s (%s) not an interface" *)
| ErrWrite.                          (* the error of the writer *)

(** [*ast.Package] of [parser.ParseDir], with what [conf.Check] answers
    for its files: the type-checked package, or the checker's error. *)
Record AstPackage := {
  ast_Name : string;
  ast_Check : string + TPackage
}.

(** [type Mocker struct].  [fset] holds source positions only and [tmpl]
    is the parsed [moqTemplate], the same for every Mocker: neither is a
    field here. *)
Record Mocker := {
  src : string;
  pkgs : gmap string AstPackage;
  pkgName : string;
  imports : gmap string bool
}.

Definition set_imports (m : Mocker) (i : gmap string bool) : Mocker :=
  {| src := src m; pkgs := pkgs m; pkgName := pkgName m; imports := i |}.

(** How a call ends: it returns a value, returns an error, or panics. *)
Inductive Outcome (A : Type) :=
| Ok (a : A)
| Err (e : Error)
| Panic (msg : string).
Arguments Ok {A} a.
Arguments Err {A} e.
Arguments Panic {A} msg.

(** Code that runs on a [*Mocker]. *)
Definition M (A : Type) : Type := Mocker -> Outcome A * Mocker.

Definition ret {A : Type} (a : A) : M A := fun m => (Ok a, m).

Definition bind {A B : Type} (c : M A) (k : A -> M B) : M B :=
  fun m =>
    match c m with
    | (Ok a, m') => k a m'
    | (Err e, m') => (Err e, m')
    | (Panic msg, m') => (Panic msg, m')
    end.

Definition fail {A : Type} (e : Error) : M A := fun m => (Err e, m).
Definition panic {A : Type} (msg : string) : M A := fun m => (Panic msg, m).
Definition get : M Mocker := fun m => (Ok m, m).
Definition lift {A : Type} (f : Mocker -> A * Mocker) : M A :=
  fun m => let '(a, m') := f m in (Ok a, m').

Notation "x <-- c ; k" := (bind c (fun x => k))
  (at level 20, c at level 100, k at level 200, only parsing).

(** A loop that appends one result per element. *)
Fixpoint for_each {A B : Type} (f : A -> M B) (l : list A) : M (list B) :=
  match l with
  | [] => ret []
  | a :: l' => b <-- f a ; bs <-- for_each f l' ; ret (b :: bs)
  end.

(** The file system as [New] sees it: what [parser.ParseDir], with the
    filter that drops the test files, returns for a directory. *)
Definition ParseDir := string -> Error + gmap string AstPackage.

(** [func New(src, packageName string)]: a Mocker or an error.  Parsing
    the constant [moqTemplate] succeeds. *)
Definition New (ord : MapOrder) (parseDir : ParseDir) (src packageName : string)
  : Error + Mocker :=
  match parseDir src with
  | inl err => inl err
  | inr pkgs =>
      let packageName :=
        if Str.is_empty packageName then
          match
            List.find (fun pkgName => negb (Str.Contains pkgName "_test"))
                      (range_map ord pkgs).*1
          with
          | Some pkgName => pkgName
          | None => packageName
          end
        else packageName in
      if Str.is_empty packageName then inl ErrNoPackageName
      else inr {| src := src; pkgs := pkgs; pkgName := packageName;
                  imports := ∅ |}
  end.

(** [func (m *Mocker) packageQualifier(pkg *types.Package) string] *)
Definition packageQualifier : Qualifier Mocker :=
  fun pkg m =>
    if String.eqb (pkgName m) (pkg_Name pkg) then (EmptyString, m)
    else (pkg_Name pkg, set_imports m (<[pkg_Path pkg := true]> (imports m))).

(** [type param struct] *)
Record param := {
  param_Name : string;
  param_Type : string;
  param_Variadic : bool
}.

(** [type method struct] *)
Record method := {
  method_Name : string;
  method_Params : list param;
  method_Returns : list param
}.

(** [type obj struct] *)
Record obj := {
  obj_InterfaceName : string;
  obj_Methods : list method
}.

(** [type doc struct] *)
Record doc := {
  doc_PackageName : string;
  doc_Objects : list obj;
  doc_Imports : list string
}.

(** [typename[0:2] == "[]"]: the slice expression panics on a string of
    fewer than two bytes. *)
Definition slice_bounds_panic : string := "slice bounds out of range".

Definition has_slice_prefix (typename : string) : M bool :=
  match Str.slice_to 2 typename with
  | Some s => ret (String.eqb s "[]")
  | None => panic slice_bounds_panic
  end.

(** The body of the loop of [extractArgs], from index [ii] on; [rest] is
    [list.At(ii), ..., list.At(listLen-1)]. *)
Fixpoint extractArgs_from (sig : Signature) (listLen : nat) (nameFormat : string)
    (ii : nat) (rest : list Var) : M (list param) :=
  match rest with
  | [] => ret []
  | p :: rest' =>
      let name :=
        if Str.is_empty (var_Name p) then Sprintf nameFormat (ii + 1)
        else var_Name p in
      typename <-- lift (TypeString (var_Type p) packageQualifier) ;
      (* check for final variadic argument *)
      variadic <--
        (if sig_Variadic sig && (ii =? listLen - 1)
         then has_slice_prefix typename
         else ret false) ;
      params <-- extractArgs_from sig listLen nameFormat (S ii) rest' ;
      ret ({| param_Name := name; param_Type := typename;
              param_Variadic := variadic |} :: params)
  end.

(** [func (m *Mocker) extractArgs(sig, list, nameFormat) []*param] *)
Definition extractArgs (sig : Signature) (list : list Var) (nameFormat : string)
  : M (Datatypes.list param) :=
  extractArgs_from sig (length list) nameFormat 0 list.

(** [moqImports]: the imports all moq files get. *)
Definition moqImports : list string := ["sync"].

(** The body of [for i := 0; i < iiface.NumMethods(); i++]. *)
Definition Mock_method (meth : Func) : M method :=
  let sig := func_Sig meth in
  Params <-- extractArgs sig (sig_Params sig) "in%d" ;
  Returns <-- extractArgs sig (sig_Results sig) "out%d" ;
  ret {| method_Name := func_Name meth;
         method_Params := Params; method_Returns := Returns |}.

(** The body of [for _, n := range name]. *)
Definition Mock_interface (tpkg : TPackage) (n : string) : M obj :=
  match tpkg_Scope tpkg !! n with
  | None => fail (ErrCannotFind n)
  | Some iface =>
      match obj_Iface iface with
      | None => fail (ErrNotInterface n (Type_String (obj_Type iface)))
      | Some iiface =>
          Methods <-- for_each Mock_method iiface ;
          ret {| obj_InterfaceName := n; obj_Methods := Methods |}
      end
  end.

(** The body of [for _, pkg := range m.pkgs]. *)
Definition Mock_package (name : list string) (pkg : AstPackage) : M (list obj) :=
  match ast_Check pkg with
  | inl err => fail (ErrCheck err)
  | inr tpkg => for_each (Mock_interface tpkg) name
  end.

(** [Mock] up to the call of the template: the document handed to it. *)
Definition Mock_doc (ord : MapOrder) (name : list string) : M doc :=
  m <-- get ;
  Objects <-- for_each (Mock_package name) (range_map ord (pkgs m)).*2 ;
  m' <-- get ;
  ret {| doc_PackageName := pkgName m;
         doc_Objects := concat Objects;
         doc_Imports := moqImports ++ (range_map ord (imports m')).*1 |}.

(* ================================================================== *)
(** ** The renderer *)
(* ================================================================== *)

(** The methods of [param] and [method] that the template calls.  A
    slice expression out of range makes the call fail: [None]. *)

(** [func (p param) TypeString() string] *)
Definition param_TypeString (p : param) : option string :=
  if param_Variadic p then
    rest ← Str.slice_from 2 (param_Type p); Some ("..." +:+ rest)
  else Some (param_Type p).

(** [func (p param) String() string] *)
Definition param_String (p : param) : option string :=
  ts ← param_TypeString p; Some (param_Name p +:+ " " +:+ ts).

(** [func (p param) CallName() string] *)
Definition param_CallName (p : param) : string :=
  if param_Variadic p then param_Name p +:+ "..." else param_Name p.

(** [func (m *method) Arglist() string] *)
Definition Arglist (m : method) : option string :=
  params ← mapM param_String (method_Params m);
  Some (Str.Join params ", ").

(** [func (m *method) ArgCallList() string] *)
Definition ArgCallList (m : method) : string :=
  Str.Join (map param_CallName (method_Params m)) ", ".

(** [func (m *method) ReturnArglist() string] *)
Definition ReturnArglist (m : method) : option string :=
  params ← mapM param_TypeString (method_Returns m);
  Some (if 1 <? length (method_Returns m)
        then "(" +:+ Str.Join params ", " +:+ ")"
        else Str.Join params ", ").

(** [templateFuncs["Exported"]] *)
Definition Exported (s : string) : string :=
  match s with
  | EmptyString => EmptyString
  | String c rest => Str.ToUpper1 c +:+ rest
  end.

(** [moqTemplate], one definition for the body of each [range].  The
    texts are those of the template after its trim markers have removed
    the white space next to them; [nl], [tab] and [dq] are the line
    feed, the tabulator and the double quote. *)
Section Template.
Import Str.

(** [range .Imports] *)
Definition tmpl_import (path : string) : string :=
  cat [nl; tab; dq; path; dq].

(** [range .Methods] of the usage comment. *)
Definition tmpl_usage (m : method) : option string :=
  Arglist ← Arglist m;
  ReturnArglist ← ReturnArglist m;
  Some (cat [
    nl; "//             "; method_Name m; "Func: func("; Arglist; ") ";
      ReturnArglist; " {";
    nl; "// "; tab; "               panic("; dq; "TODO: mock out the ";
      method_Name m; " method"; dq; ")";
    nl; "//             },"]).

(** [range .Methods] of the struct: the function fields. *)
Definition tmpl_field (m : method) : option string :=
  Arglist ← Arglist m;
  ReturnArglist ← ReturnArglist m;
  Some (cat [
    nl; tab; "// "; method_Name m; "Func mocks the "; method_Name m;
      " method.";
    nl; tab; method_Name m; "Func func("; Arglist; ") "; ReturnArglist;
    nl]).

(** [range .Params] of a call record. *)
Definition tmpl_calls_param (p : param) : string :=
  cat [
    nl; tab; tab; tab; "// "; Exported (param_Name p); " is the ";
      param_Name p; " argument value.";
    nl; tab; tab; tab; Exported (param_Name p); " "; param_Type p].

(** [range .Methods] of [CallsTo]. *)
Definition tmpl_calls (m : method) : string :=
  cat [
    nl; tab; tab; "lock"; method_Name m; " sync.Mutex // protects ";
      method_Name m;
    nl; tab; tab; "// "; method_Name m;
      " holds details about calls to the "; method_Name m; " method.";
    nl; tab; tab; method_Name m; " []struct {";
    cat (map tmpl_calls_param (method_Params m));
    nl; tab; tab; "}"].

(** The two [range .Params] of a method body. *)
Definition tmpl_log_field (p : param) : string :=
  cat [nl; tab; tab; Exported (param_Name p); " "; param_Type p].

Definition tmpl_log_value (p : param) : string :=
  cat [nl; tab; tab; Exported (param_Name p); ": "; param_Name p; ","].

(** [range .Methods] of the method implementations; [$obj] is [o]. *)
Definition tmpl_method (o : obj) (m : method) : option string :=
  Arglist ← Arglist m;
  ReturnArglist ← ReturnArglist m;
  Some (cat [
    nl; "// "; method_Name m; " calls "; method_Name m; "Func.";
    nl; "func (mock *"; obj_InterfaceName o; "Mock) "; method_Name m;
      "("; Arglist; ") "; ReturnArglist; " {";
    nl; tab; "if mock."; method_Name m; "Func == nil {";
    nl; tab; tab; "panic("; dq; "moq: "; obj_InterfaceName o; "Mock.";
      method_Name m; "Func is nil but was just called"; dq; ")";
    nl; tab; "}";
    nl; tab; "mock.CallsTo.lock"; method_Name m; ".Lock()";
    nl; tab; "mock.CallsTo."; method_Name m; " = append(mock.CallsTo.";
      method_Name m; ", struct{";
    cat (map tmpl_log_field (method_Params m));
    nl; tab; "}{";
    cat (map tmpl_log_value (method_Params m));
    nl; tab; "})";
    nl; tab; "mock.CallsTo.lock"; method_Name m; ".Unlock()";
    (if negb (is_empty ReturnArglist)
     then cat [nl; tab; "return mock."; method_Name m; "Func(";
               ArgCallList m; ")"]
     else cat [nl; tab; "mock."; method_Name m; "Func(";
               ArgCallList m; ")"]);
    nl; "}"; nl]).

(** [range $i, $obj := .Objects] *)
Definition tmpl_obj (o : obj) : option string :=
  let I := obj_InterfaceName o in
  usage ← mapM tmpl_usage (obj_Methods o);
  fields ← mapM tmpl_field (obj_Methods o);
  methods ← mapM (tmpl_method o) (obj_Methods o);
  Some (cat [
    nl; "// "; I; "Mock is a mock implementation of "; I; ".";
    nl; "//";
    nl; "//     func TestSomethingThatUses"; I; "(t *testing.T) {";
    nl; "//";
    nl; "//         // make and configure a mocked "; I;
    nl; "//         mocked"; I; " := &"; I; "Mock{ ";
    cat usage;
    nl; "//         }";
    nl; "//";
    nl; "//         // TODO: use mocked"; I; " in code that requires "; I;
    nl; "//         //       and then make assertions.";
    nl; "//         //";
    nl; "//         // Use the CallsTo structure to access details about what calls were made:";
    nl; "//         // ";
    nl; "//         //     if len(mocked"; I; ".CallsTo.MethodFunc) != 1 {";
    nl; "//"; tab; "       //     "; tab; "t.Errorf("; dq;
      "expected 1 call there were %d"; dq; ", len(mocked"; I;
      ".CallsTo.MethodFunc))";
    nl; "//         //     }";
    nl; "//         ";
    nl; "//     }";
    nl; "type "; I; "Mock struct {";
    cat fields;
    nl; tab; "// CallsTo tracks calls to the methods.";
    nl; tab; "CallsTo struct {";
    cat (map tmpl_calls (obj_Methods o));
    nl; tab; "}";
    nl; "}";
    nl;
    cat methods]).

(** [moqTemplate] executed on a document: the text it produces, if no
    call fails on the way. *)
Definition moqTemplate (d : doc) : option string :=
  objects ← mapM tmpl_obj (doc_Objects d);
  Some (cat [
    "package "; doc_PackageName d;
    nl;
    nl; "// AUTOGENERATED BY MOQ";
    nl; "// github.com/matryer/moq";
    nl;
    nl; "import (";
    cat (map tmpl_import (doc_Imports d));
    nl; ")";
    nl;
    cat objects]).

End Template.

(** [io.Writer].  A writer takes bytes as long as it has room for them:
    [w_room = None] is a writer that never fails, such as a
    [bytes.Buffer]; [Some n] one that fails after [n] more bytes, such as
    a full disk or a closed pipe. *)
Record Writer := {
  w_written : string;
  w_room : option nat
}.

(** The first [n] bytes of [s]. *)
Definition string_take (n : nat) (s : string) : string := String.substring 0 n s.

(** The bytes of one template execution reaching the writer: all of them
    ([true]), or as many as there is room for, then the writer's error
    ([false]).  [text/template] writes its output piece by piece; for
    these writers the result does not depend on where the pieces end. *)
Definition Write (w : Writer) (p : string) : Writer * bool :=
  match w_room w with
  | None => ({| w_written := w_written w +:+ p; w_room := None |}, true)
  | Some room =>
      if String.length p <=? room
      then ({| w_written := w_written w +:+ p;
               w_room := Some (room - String.length p) |}, true)
      else ({| w_written := w_written w +:+ string_take room p;
               w_room := Some 0 |}, false)
  end.

(** [m.tmpl.Execute(w, doc)].  A document on which a template call fails
    is not rendered; [Mock] never builds one. *)
Definition Execute (w : Writer) (d : doc) : Writer * Outcome unit :=
  match moqTemplate d with
  | None => (w, Panic slice_bounds_panic)
  | Some text =>
      let '(w', ok) := Write w text in
      (w', if ok then Ok tt else Err ErrWrite)
  end.

(** [func (m *Mocker) Mock(w io.Writer, name ...string) error]: the
    Mocker and the writer after the call, and how the call ended. *)
Definition Mock (ord : MapOrder) (m : Mocker) (w : Writer) (name : list string)
  : Mocker * Writer * Outcome unit :=
  if Nat.eqb (length name) 0 then (m, w, Err ErrNoInterface)
  else
    match Mock_doc ord name m with
    | (Ok doc, m') =>
        let '(w', err) := Execute w doc in (m', w', err)
    | (Err err, m') => (m', w, Err err)
    | (Panic msg, m') => (m', w, Panic msg)
    end.

(** [New] followed by [Mock] on the new Mocker: one run of the generator. *)
Definition generate (ord : MapOrder) (parseDir : ParseDir)
    (src packageName : string) (w : Writer) (name : list string)
  : Writer * Outcome unit :=
  match New ord parseDir src packageName with
  | inl err => (w, Err err)
  | inr m => let '(_, w', err) := Mock ord m w name in (w', err)
  end.

(* ================================================================== *)
(** ** Vocabulary of the statements *)
(* ================================================================== *)

(** What a call may do to the Mocker: nothing but add import paths. *)
Definition grows (m m' : Mocker) : Prop :=
  src m' = src m /\ pkgs m' = pkgs m /\ pkgName m' = pkgName m /\
  dom (imports m) ⊆ dom (imports m').

(** The packages a type mentions, in the order [TypeString] meets them. *)
Fixpoint type_pkgs (typ : GoType) : list Package :=
  match typ with
  | Basic _ => []
  | Array _ elem | Slice elem | Pointer elem | Chan _ elem => type_pkgs elem
  | Map key elem => type_pkgs key ++ type_pkgs elem
  | Named None _ => []
  | Named (Some pkg) _ => [pkg]
  end.

(** The slice expression [typename[0:2]] of [extractArgs] is evaluated on
    the last element of the list of a variadic signature, and nowhere
    else: it is in bounds when that type prints with two bytes or more. *)
Definition extractArgs_defined (m : Mocker) (sig : Signature) (list : list Var)
  : bool :=
  negb (sig_Variadic sig)
  || match last list with
     | None => true
     | Some v =>
         2 <=? String.length (TypeString (var_Type v) packageQualifier m).1
     end.

(** A computation that leaves the Mocker as it is but for new imports,
    however it ends. *)
Definition steady {A : Type} (c : M A) : Prop := forall m, grows m (c m).2.

(** The errors a computation may return. *)
Definition raises {A : Type} (c : M A) (P : Error -> Prop) : Prop :=
  forall m e m', c m = (Err e, m') -> P e.

(** The errors of the extraction: those of the type checker and of the
    lookup of an interface. *)
Definition extraction_error (e : Error) : Prop :=
  match e with
  | ErrCheck _ | ErrCannotFind _ | ErrNotInterface _ _ => True
  | _ => False
  end.

(** The descriptor of the element at index [ii] of a list of [listLen]. *)
Definition param_of (m : Mocker) (sig : Signature) (listLen : nat)
    (nameFormat : string) (ii : nat) (p : Var) : param :=
  let typename := (TypeString (var_Type p) packageQualifier m).1 in
  {| param_Name :=
       if Str.is_empty (var_Name p) then Sprintf nameFormat (ii + 1)
       else var_Name p;
     param_Type := typename;
     param_Variadic :=
       sig_Variadic sig && (ii =? listLen - 1) && String.prefix "[]" typename |}.

(** A method renders when its two argument lists do. *)
Definition method_renders (m : method) : Prop :=
  is_Some (Arglist m) /\ is_Some (ReturnArglist m).

(** [s] occurs in [t]. *)
Definition occurs_in (s t : string) : Prop :=
  exists before after, t = before +:+ s +:+ after.

(** The packages of another name than the target's that the signatures
    of the requested interfaces mention. *)
Definition mentioned (m : Mocker) (name : list string) (pkg : Package) : Prop :=
  pkg_Name pkg <> pkgName m /\
  exists pname apkg tpkg n iface iiface meth v,
    pkgs m !! pname = Some apkg /\ ast_Check apkg = inr tpkg /\
    n ∈ name /\ tpkg_Scope tpkg !! n = Some iface /\
    obj_Iface iface = Some iiface /\ meth ∈ iiface /\
    v ∈ sig_Params (func_Sig meth) ++ sig_Results (func_Sig meth) /\
    pkg ∈ type_pkgs (var_Type v).

(* ================================================================== *)
(** ** Example packages *)
(* ================================================================== *)

Module Ex.

Definition pkg_demo : Package := {| pkg_Name := "demo"; pkg_Path := "." |}.
Definition pkg_io : Package := {| pkg_Name := "io"; pkg_Path := "io" |}.
Definition pkg_context : Package :=
  {| pkg_Name := "context"; pkg_Path := "context" |}.
Definition pkg_sync : Package := {| pkg_Name := "sync"; pkg_Path := "sync" |}.

Definition var (name : string) (typ : GoType) : Var :=
  {| var_Name := name; var_Type := typ |}.

Definition iface_of (name : string) (methods : list Func) : Object :=
  {| obj_Type := Named (Some pkg_demo) name; obj_Iface := Some methods |}.

(** [Greet(name string) string] *)
Definition Greet : Func :=
  {| func_Name := "Greet";
     func_Sig := {| sig_Params := [var "name" (Basic "string")];
                    sig_Results := [var "" (Basic "string")];
                    sig_Variadic := false |} |}.

(** [Copy(context.Context, io.Reader, ...int) (n int, error)] *)
Definition Copy : Func :=
  {| func_Name := "Copy";
     func_Sig := {| sig_Params := [var "" (Named (Some pkg_context) "Context");
                                   var "r" (Named (Some pkg_io) "Reader");
                                   var "" (Slice (Basic "int"))];
                    sig_Results := [var "n" (Basic "int");
                                    var "" (Named None "error")];
                    sig_Variadic := true |} |}.

(** [With(l sync.Locker)] *)
Definition With : Func :=
  {| func_Name := "With";
     func_Sig := {| sig_Params := [var "l" (Named (Some pkg_sync) "Locker")];
                    sig_Results := [];
                    sig_Variadic := false |} |}.

(** [Pick(xs ...int) T], with [type T int] declared beside the
    interface. *)
Definition Pick : Func :=
  {| func_Name := "Pick";
     func_Sig := {| sig_Params := [var "xs" (Slice (Basic "int"))];
                    sig_Results := [var "" (Named (Some pkg_demo) "T")];
                    sig_Variadic := true |} |}.

(** [Tail(xs ...int) []int] *)
Definition Tail : Func :=
  {| func_Name := "Tail";
     func_Sig := {| sig_Params := [var "xs" (Slice (Basic "int"))];
                    sig_Results := [var "" (Slice (Basic "int"))];
                    sig_Variadic := true |} |}.

(** The package [demo] in the directory ["."]. *)
Definition demo_types : TPackage :=
  {| tpkg_Pkg := pkg_demo;
     tpkg_Scope :=
       <["Greeter" := iface_of "Greeter" [Greet]]>
       (<["Copier" := iface_of "Copier" [Copy]]>
       (<["Guard" := iface_of "Guard" [With]]>
       (<["Picker" := iface_of "Picker" [Pick]]>
       (<["T" := {| obj_Type := Named (Some pkg_demo) "T"; obj_Iface := None |}]>
        ∅)))) |}.

Definition demo_ast : AstPackage :=
  {| ast_Name := "demo"; ast_Check := inr demo_types |}.

Definition demo_dir : ParseDir :=
  fun _ => inr (<["demo" := demo_ast]> ∅).

(** The Mocker that [New] makes for it. *)
Definition demo : Mocker :=
  {| src := "."; pkgs := <["demo" := demo_ast]> ∅; pkgName := "demo";
     imports := ∅ |}.

(** What [Mock] extracts for [Greeter]. *)
Definition Greet_method : method :=
  {| method_Name := "Greet";
     method_Params := [{| param_Name := "name"; param_Type := "string";
                          param_Variadic := false |}];
     method_Returns := [{| param_Name := "out1"; param_Type := "string";
                           param_Variadic := false |}] |}.

Definition Greeter_obj : obj :=
  {| obj_InterfaceName := "Greeter"; obj_Methods := [Greet_method] |}.

Definition Greeter_doc : doc :=
  {| doc_PackageName := "demo"; doc_Objects := [Greeter_obj];
     doc_Imports := ["sync"] |}.

Definition buffer : Writer := {| w_written := ""; w_room := None |}.
Definition pipe (room : nat) : Writer := {| w_written := ""; w_room := Some room |}.

(** A directory with the package [demo] and a package [demo_test]. *)
Definition mixed : gmap string AstPackage :=
  <["demo_test" := {| ast_Name := "demo_test"; ast_Check := inr demo_types |}]>
  (<["demo" := demo_ast]> ∅).

Definition mixed_dir : ParseDir := fun _ => inr mixed.

(** A directory with the packages [demo] and [main], both with an
    interface [Greeter]. *)
Definition main_ast : AstPackage :=
  {| ast_Name := "main";
     ast_Check :=
       inr {| tpkg_Pkg := {| pkg_Name := "main"; pkg_Path := "." |};
              tpkg_Scope :=
                <["Greeter" :=
                    {| obj_Type :=
                         Named (Some {| pkg_Name := "main"; pkg_Path := "." |})
                               "Greeter";
                       obj_Iface := Some [Greet] |}]> ∅ |} |}.

Definition twin : Mocker :=
  {| src := "."; pkgs := <["main" := main_ast]> (<["demo" := demo_ast]> ∅);
     pkgName := "demo"; imports := ∅ |}.

(** Two packages named [util], in different directories. *)
Definition pkg_util_a : Package := {| pkg_Name := "util"; pkg_Path := "a/util" |}.
Definition pkg_util_b : Package := {| pkg_Name := "util"; pkg_Path := "b/util" |}.

Definition util : Mocker :=
  {| src := "a/util"; pkgs := ∅; pkgName := "util"; imports := ∅ |}.

End Ex.

(* ================================================================== *)
(** * Properties *)
(* ================================================================== *)

(** ** Facts about strings *)

Lemma append_cons (c : ascii) (s1 s2 : string) :
  String c s1 +:+ s2 = String c (s1 +:+ s2).
Proof. reflexivity. Qed.

Lemma append_nil_r (s : string) : s +:+ "" = s.
Proof. induction s as [|c s IH]; [done | by rewrite append_cons, IH]. Qed.

Lemma append_assoc (s1 s2 s3 : string) : (s1 +:+ s2) +:+ s3 = s1 +:+ (s2 +:+ s3).
Proof. induction s1 as [|c s1 IH]; [done | by rewrite !append_cons, IH]. Qed.

Lemma length_append (s1 s2 : string) :
  String.length (s1 +:+ s2) = String.length s1 + String.length s2.
Proof.
  induction s1 as [|c s1 IH]; [done|]. rewrite append_cons. simpl. by rewrite IH.
Qed.

Lemma cat_app (l1 l2 : list string) : Str.cat (l1 ++ l2) = Str.cat l1 +:+ Str.cat l2.
Proof.
  induction l1 as [|s l1 IH]; simpl; [done|].
  by rewrite IH, append_assoc.
Qed.

Lemma cat_cons (s : string) (l : list string) : Str.cat (s :: l) = s +:+ Str.cat l.
Proof. done. Qed.

Lemma is_empty_true (s : string) : Str.is_empty s = true <-> s = "".
Proof. destruct s; simpl; split; congruence. Qed.

Lemma slice_to_2_prefix (s p : string) :
  Str.slice_to 2 s = Some p -> String.eqb p "[]" = String.prefix "[]" s.
Proof.
  destruct s as [|a [|b s]]; cbn [Str.slice_to option_map]; try discriminate.
  intros [= <-]. cbn [String.eqb String.prefix].
  destruct (Ascii.eqb_spec a "["), (ascii_dec "[" a); try congruence;
  destruct (Ascii.eqb_spec b "]"), (ascii_dec "]" b); try congruence.
  by destruct s.
Qed.

Lemma slice_to_2_Some (s : string) :
  2 <= String.length s -> is_Some (Str.slice_to 2 s).
Proof. destruct s as [|a [|b s]]; simpl; [lia | lia | eauto]. Qed.

Lemma slice_to_2_None (s : string) :
  String.length s < 2 -> Str.slice_to 2 s = None.
Proof. destruct s as [|a [|b s]]; simpl; [done | done | lia]. Qed.

Lemma slice_from_2_Some (s : string) :
  2 <= String.length s -> is_Some (Str.slice_from 2 s).
Proof. destruct s as [|a [|b s]]; simpl; [lia | lia | eauto]. Qed.

Lemma prefix_brackets_length (s : string) :
  String.prefix "[]" s = true -> 2 <= String.length s.
Proof.
  destruct s as [|a [|b s]]; cbn [String.prefix String.length]; try discriminate.
  - destruct (ascii_dec "[" a); discriminate.
  - lia.
Qed.

Lemma Sprintf_in (n : nat) : Sprintf "in%d" n = "in" +:+ Str.decimal n.
Proof. unfold Sprintf. simpl. by rewrite append_nil_r. Qed.

Lemma Sprintf_out (n : nat) : Sprintf "out%d" n = "out" +:+ Str.decimal n.
Proof. unfold Sprintf. simpl. by rewrite append_nil_r. Qed.

(* ================================================================== *)
(** ** The Mocker only gathers imports *)
(* ================================================================== *)

#[local] Instance grows_preorder : PreOrder grows.
Proof.
  split.
  - intros m. by repeat split.
  - intros m1 m2 m3 (?&?&?&?) (?&?&?&?). repeat split; try congruence.
    set_solver.
Qed.

Lemma packageQualifier_grows (pkg : Package) (m : Mocker) :
  grows m (packageQualifier pkg m).2.
Proof.
  unfold packageQualifier. destruct (String.eqb _ _); simpl; [reflexivity|].
  repeat split; simpl. rewrite dom_insert. set_solver.
Qed.

(** The qualifier is decided by the two package names alone. *)
Lemma packageQualifier_text (pkg : Package) (m : Mocker) :
  (packageQualifier pkg m).1 =
  if String.eqb (pkgName m) (pkg_Name pkg) then "" else pkg_Name pkg.
Proof. unfold packageQualifier. by destruct (String.eqb _ _). Qed.

Lemma TypeString_grows (typ : GoType) (m : Mocker) :
  grows m (TypeString typ packageQualifier m).2.
Proof.
  revert m. induction typ as [| | | | key IHk elem IHe | |[pkg|]]; intros m; simpl;
    try reflexivity.
  1-3,5: specialize (IHtyp m); by destruct (TypeString typ _ m).
  - specialize (IHk m). destruct (TypeString key _ m) as [k m1]. simpl in *.
    specialize (IHe m1). destruct (TypeString elem _ m1) as [s m2]. simpl in *.
    by etrans.
  - unfold writePackage. pose proof (packageQualifier_grows pkg m) as H.
    by destruct (packageQualifier pkg m).
Qed.

(** The text of a type depends on the Mocker through [pkgName] only. *)
Lemma TypeString_text (typ : GoType) (m1 m2 : Mocker) :
  pkgName m1 = pkgName m2 ->
  (TypeString typ packageQualifier m1).1 = (TypeString typ packageQualifier m2).1.
Proof.
  revert m1 m2.
  induction typ as [| | | | key IHk elem IHe | |[pkg|]]; intros m1 m2 Hn; simpl;
    try reflexivity.
  1-3,5: specialize (IHtyp m1 m2 Hn);
    destruct (TypeString typ _ m1), (TypeString typ _ m2); simpl in *; by subst.
  - specialize (IHk m1 m2 Hn).
    pose proof (TypeString_grows key m1) as (_&_&G1&_).
    pose proof (TypeString_grows key m2) as (_&_&G2&_).
    destruct (TypeString key _ m1) as [k1 m1'], (TypeString key _ m2) as [k2 m2'].
    simpl in *. subst k2.
    assert (pkgName m1' = pkgName m2') as Hn' by congruence.
    specialize (IHe m1' m2' Hn').
    destruct (TypeString elem _ m1'), (TypeString elem _ m2'); simpl in *; by subst.
  - unfold writePackage.
    pose proof (packageQualifier_text pkg m1) as H1.
    pose proof (packageQualifier_text pkg m2) as H2.
    destruct (packageQualifier pkg m1), (packageQualifier pkg m2). simpl in *.
    subst. by rewrite Hn.
Qed.

(** Every package of another name that a type mentions is in the import
    set once the type has been printed. *)
Lemma TypeString_imports (typ : GoType) (m : Mocker) (pkg : Package) :
  pkg ∈ type_pkgs typ -> pkg_Name pkg <> pkgName m ->
  pkg_Path pkg ∈ dom (imports (TypeString typ packageQualifier m).2).
Proof.
  revert m. induction typ as [| | | | key IHk elem IHe | |[p|]]; intros m; simpl;
    try (by intros ?%elem_of_nil).
  1-3,5: intros Hin Hne; specialize (IHtyp m Hin Hne);
    by destruct (TypeString typ _ m).
  - intros Hin Hne.
    pose proof (TypeString_grows key m) as (_&_&G1&_).
    specialize (IHk m).
    destruct (TypeString key _ m) as [k m1]. simpl in *.
    pose proof (TypeString_grows elem m1) as (_&_&_&G2).
    specialize (IHe m1).
    destruct (TypeString elem _ m1) as [s m2]. simpl in *.
    apply elem_of_app in Hin as [Hin|Hin].
    + apply G2. by apply IHk.
    + apply IHe; [done | congruence].
  - intros Hin%list_elem_of_singleton Hne. subst p.
    unfold writePackage, packageQualifier.
    destruct (String.eqb_spec (pkgName m) (pkg_Name pkg)) as [E|E]; [congruence|].
    simpl. rewrite dom_insert. set_solver.
Qed.

(* ================================================================== *)
(** ** Steps in [M] *)
(* ================================================================== *)

Lemma steady_ret {A : Type} (a : A) : steady (ret a).
Proof. intros m. reflexivity. Qed.

Lemma steady_fail {A : Type} (e : Error) : steady (@fail A e).
Proof. intros m. reflexivity. Qed.

Lemma steady_panic {A : Type} (msg : string) : steady (@panic A msg).
Proof. intros m. reflexivity. Qed.

Lemma steady_get : steady get.
Proof. intros m. reflexivity. Qed.

Lemma steady_bind {A B : Type} (c : M A) (k : A -> M B) :
  steady c -> (forall a, steady (k a)) -> steady (bind c k).
Proof.
  intros Hc Hk m. unfold bind. specialize (Hc m).
  destruct (c m) as [[a|e|msg] m1]; simpl in *; try done.
  etrans; [exact Hc | apply Hk].
Qed.

Lemma steady_for_each {A B : Type} (f : A -> M B) (l : list A) :
  (forall a, steady (f a)) -> steady (for_each f l).
Proof.
  intros Hf. induction l as [|a l IH]; simpl.
  - apply steady_ret.
  - apply steady_bind; [apply Hf|]. intros b.
    apply steady_bind; [apply IH|]. intros bs. apply steady_ret.
Qed.

Lemma bind_Ok {A B : Type} (c : M A) (k : A -> M B) m b m' :
  bind c k m = (Ok b, m') <->
  exists a m1, c m = (Ok a, m1) /\ k a m1 = (Ok b, m').
Proof.
  unfold bind. split.
  - destruct (c m) as [[a|e|msg] m1]; [eauto | done | done].
  - intros (a & m1 & -> & H). done.
Qed.

(** A finished loop has run its body on every element, between two
    states that the loop went through. *)
Lemma for_each_Ok {A B : Type} (f : A -> M B) (l : list A) m bs m' :
  (forall a, steady (f a)) ->
  for_each f l m = (Ok bs, m') ->
  Forall2 (fun a b => exists m1 m2,
             grows m m1 /\ f a m1 = (Ok b, m2) /\ grows m2 m') l bs.
Proof.
  intros Hf. revert m bs. induction l as [|a l IH]; intros m bs; simpl.
  - intros [= <- <-]. constructor.
  - intros (b & m1 & Hb & (bs' & m2 & Hbs & [= <- <-])%bind_Ok)%bind_Ok.
    pose proof (Hf a m) as G1. rewrite Hb in G1. simpl in G1.
    pose proof (steady_for_each f l Hf m1) as G2. rewrite Hbs in G2. simpl in G2.
    constructor.
    + exists m, m1. split; [reflexivity|]. by split.
    + eapply Forall2_impl; [by apply IH|]. simpl.
      intros a' b' (n1 & n2 & ? & ? & ?). exists n1, n2.
      split; [by etrans|]. by split.
Qed.

(* ================================================================== *)
(** ** [extractArgs] *)
(* ================================================================== *)

Lemma param_of_pkgName m1 m2 sig listLen nameFormat ii p :
  pkgName m1 = pkgName m2 ->
  param_of m1 sig listLen nameFormat ii p = param_of m2 sig listLen nameFormat ii p.
Proof.
  intros Hn. unfold param_of.
  by rewrite (TypeString_text (var_Type p) m1 m2 Hn).
Qed.

Lemma extractArgs_defined_pkgName m1 m2 sig list :
  pkgName m1 = pkgName m2 ->
  extractArgs_defined m1 sig list = extractArgs_defined m2 sig list.
Proof.
  intros Hn. unfold extractArgs_defined.
  destruct (last list) as [v|]; [|done].
  by rewrite (TypeString_text (var_Type v) m1 m2 Hn).
Qed.

Lemma extractArgs_defined_true m sig list :
  extractArgs_defined m sig list = true <->
  (sig_Variadic sig = true -> forall v, last list = Some v ->
   2 <= String.length (TypeString (var_Type v) packageQualifier m).1).
Proof.
  unfold extractArgs_defined.
  destruct (sig_Variadic sig); cbn [negb orb]; [|by split].
  destruct (last list) as [v|].
  - rewrite Nat.leb_le. split; [by intros H _ ? [= <-] | eauto].
  - by split.
Qed.

Lemma extractArgs_defined_false m sig list :
  extractArgs_defined m sig list = false <->
  sig_Variadic sig = true /\
  exists v, last list = Some v /\
            String.length (TypeString (var_Type v) packageQualifier m).1 < 2.
Proof.
  unfold extractArgs_defined.
  destruct (sig_Variadic sig); cbn [negb orb]; [|by split; [|intros []]].
  destruct (last list) as [v|].
  - rewrite Nat.leb_gt. split; [by eauto | by intros (_ & ? & [= <-] & ?)].
  - split; [done | by intros (_ & ? & ? & _)].
Qed.

Lemma steady_TypeString (typ : GoType) :
  steady (lift (TypeString typ packageQualifier)).
Proof.
  intros m. unfold lift. pose proof (TypeString_grows typ m) as G.
  by destruct (TypeString typ packageQualifier m).
Qed.

Lemma steady_has_slice_prefix (typename : string) :
  steady (has_slice_prefix typename).
Proof.
  unfold has_slice_prefix.
  destruct (Str.slice_to 2 typename); [apply steady_ret | apply steady_panic].
Qed.

Lemma steady_extractArgs_from sig listLen nameFormat ii rest :
  steady (extractArgs_from sig listLen nameFormat ii rest).
Proof.
  revert ii. induction rest as [|p rest IH]; intros ii; simpl.
  - apply steady_ret.
  - apply steady_bind; [apply steady_TypeString|]. intros typename.
    apply steady_bind.
    { destruct (_ && _); [apply steady_has_slice_prefix | apply steady_ret]. }
    intros variadic. apply steady_bind; [apply IH|]. intros ps. apply steady_ret.
Qed.

Lemma steady_extractArgs sig list nameFormat :
  steady (extractArgs sig list nameFormat).
Proof. apply steady_extractArgs_from. Qed.

(** Where the slice expression stays in bounds, the loop returns the
    descriptors [param_of] of the elements, in order. *)
Lemma extractArgs_from_Ok sig listLen nameFormat rest : forall ii m,
  ii + length rest = listLen ->
  extractArgs_defined m sig rest = true ->
  exists m',
    extractArgs_from sig listLen nameFormat ii rest m =
    (Ok (imap (fun j => param_of m sig listLen nameFormat (ii + j)) rest), m').
Proof.
  induction rest as [|p rest IH]; intros ii m Hlen Hdef; simpl.
  - by exists m.
  - unfold bind at 1. unfold lift.
    pose proof (TypeString_grows (var_Type p) m) as (_&_&Hn&_).
    destruct (TypeString (var_Type p) packageQualifier m) as [typename m1] eqn:Ets.
    simpl in Hn.
    assert (typename = (TypeString (var_Type p) packageQualifier m).1) as Htn
      by (by rewrite Ets).
    assert (exists variadic : bool,
      (if sig_Variadic sig && (ii =? listLen - 1)
       then has_slice_prefix typename else ret false) m1 = (Ok variadic, m1) /\
      variadic = sig_Variadic sig && (ii =? listLen - 1)
                 && String.prefix "[]" typename) as (variadic & Hv & Evar).
    { destruct (sig_Variadic sig) eqn:Evd; simpl; [|by exists false].
      destruct (Nat.eqb_spec ii (listLen - 1)) as [Eii|Eii]; [|by exists false].
      assert (rest = []) as -> by (destruct rest; [done | simpl in *; lia]).
      pose proof (proj1 (extractArgs_defined_true _ _ _) Hdef Evd p eq_refl) as Hlong.
      rewrite <- Htn in Hlong.
      destruct (slice_to_2_Some typename Hlong) as [s Es].
      unfold has_slice_prefix. rewrite Es.
      exists (String.eqb s "[]"). split; [done|]. by apply slice_to_2_prefix. }
    unfold bind at 1. rewrite Hv.
    destruct (IH (S ii) m1) as [m' Hrec]; [simpl in Hlen; lia | |].
    { rewrite (extractArgs_defined_pkgName m1 m sig rest Hn).
      apply extractArgs_defined_true. intros Evd v Hlast.
      apply (proj1 (extractArgs_defined_true _ _ _) Hdef Evd).
      by rewrite last_cons, Hlast. }
    unfold bind, ret. rewrite Hrec. exists m'.
    apply (f_equal (fun ps => (Ok ps, m'))). f_equal.
    + unfold param_of. by rewrite <- Htn, Nat.add_0_r, Evar.
    + apply imap_ext. intros j v _. simpl.
      rewrite (param_of_pkgName m1 m _ _ _ _ _ Hn). f_equal. lia.
Qed.

(** Where it does not, the loop panics. *)
Lemma extractArgs_from_Panic sig listLen nameFormat rest : forall ii m,
  ii + length rest = listLen ->
  extractArgs_defined m sig rest = false ->
  exists m',
    extractArgs_from sig listLen nameFormat ii rest m =
    (Panic slice_bounds_panic, m').
Proof.
  induction rest as [|p rest IH]; intros ii m Hlen Hdef.
  - by apply extractArgs_defined_false in Hdef as (_ & v & ? & _).
  - simpl. unfold bind at 1. unfold lift.
    pose proof (TypeString_grows (var_Type p) m) as (_&_&Hn&_).
    destruct (TypeString (var_Type p) packageQualifier m) as [typename m1] eqn:Ets.
    simpl in Hn.
    apply extractArgs_defined_false in Hdef as (Evd & v & Hlast & Hshort).
    rewrite Evd. cbn [andb].
    destruct rest as [|q rest].
    + injection Hlast as <-. rewrite Ets in Hshort. simpl in Hshort, Hlen.
      replace (ii =? listLen - 1) with true by (symmetry; apply Nat.eqb_eq; lia).
      unfold bind, has_slice_prefix. rewrite (slice_to_2_None _ Hshort).
      by exists m1.
    + replace (ii =? listLen - 1) with false
        by (symmetry; apply Nat.eqb_neq; simpl in Hlen; lia).
      unfold bind at 1. unfold ret at 1.
      destruct (IH (S ii) m1) as [m' Hrec]; [simpl in *; lia | |].
      { rewrite (extractArgs_defined_pkgName m1 m sig _ Hn).
        apply extractArgs_defined_false. split; [done|]. exists v.
        split; [|done]. rewrite last_cons in Hlast.
        destruct (last (q :: rest)) eqn:E; [done|].
        rewrite last_cons in E. by destruct (last rest). }
      unfold bind. rewrite Hrec. by exists m'.
Qed.

(** A well-formed signature keeps the slice expression in bounds on its
    parameters: the last one of a variadic signature is a slice. *)
Lemma sig_wf_defined (m : Mocker) (sig : Signature) :
  sig_wf sig = true -> extractArgs_defined m sig (sig_Params sig) = true.
Proof.
  intros Hwf. apply extractArgs_defined_true. intros Evd v Hlast.
  unfold sig_wf in Hwf. rewrite Evd, Hlast in Hwf.
  destruct (var_Type v) as [| |elem| | | |]; try done.
  simpl. destruct (TypeString elem packageQualifier m) as [s m'].
  simpl. rewrite length_append. simpl. lia.
Qed.

(** [extractArgs] either returns the descriptors [param_of], or panics. *)
Lemma extractArgs_spec sig list nameFormat m :
  exists m',
    extractArgs sig list nameFormat m =
    ((if extractArgs_defined m sig list
      then Ok (imap (param_of m sig (length list) nameFormat) list)
      else Panic slice_bounds_panic), m').
Proof.
  unfold extractArgs. destruct (extractArgs_defined m sig list) eqn:Hdef.
  - destruct (extractArgs_from_Ok sig (length list) nameFormat list 0 m
                eq_refl Hdef) as [m' H].
    exists m'. exact H.
  - by apply extractArgs_from_Panic.
Qed.

Lemma extractArgs_Ok_inv sig list nameFormat m ps m' :
  extractArgs sig list nameFormat m = (Ok ps, m') ->
  extractArgs_defined m sig list = true /\
  ps = imap (param_of m sig (length list) nameFormat) list.
Proof.
  destruct (extractArgs_spec sig list nameFormat m) as [m1 ->].
  destruct (extractArgs_defined m sig list); [|done]. by intros [= <- <-].
Qed.

(** Printing the types of a list leaves their packages in the import
    set. *)
Lemma extractArgs_from_imports sig listLen nameFormat rest :
  forall ii m ps m' v pkg,
  extractArgs_from sig listLen nameFormat ii rest m = (Ok ps, m') ->
  v ∈ rest -> pkg ∈ type_pkgs (var_Type v) -> pkg_Name pkg <> pkgName m ->
  pkg_Path pkg ∈ dom (imports m').
Proof.
  induction rest as [|p rest IH]; intros ii m ps m' v pkg; simpl.
  - by intros _ ?%elem_of_nil.
  - intros (typename & m1 & Hts & (variadic & m2 & Hv &
      (ps' & m3 & Hrec & [= <- <-])%bind_Ok)%bind_Ok)%bind_Ok Hin Hpkg Hne.
    assert (grows m m1 /\ (TypeString (var_Type p) packageQualifier m).2 = m1)
      as [G1 E1].
    { pose proof (TypeString_grows (var_Type p) m) as G. unfold lift in Hts.
      destruct (TypeString (var_Type p) packageQualifier m). simpl in *.
      by injection Hts as <- <-. }
    assert (grows m1 m2) as G2.
    { assert (steady (if sig_Variadic sig && (ii =? listLen - 1)
                      then has_slice_prefix typename else ret false)) as St.
      { destruct (_ && _); [apply steady_has_slice_prefix | apply steady_ret]. }
      specialize (St m1). by rewrite Hv in St. }
    assert (grows m2 m3) as G3.
    { pose proof (steady_extractArgs_from sig listLen nameFormat (S ii) rest m2)
        as St. by rewrite Hrec in St. }
    apply elem_of_cons in Hin as [->|Hin].
    + destruct G2 as (_&_&_&G2), G3 as (_&_&_&G3). apply G3, G2.
      rewrite <- E1. by apply TypeString_imports.
    + eapply IH; [exact Hrec | exact Hin | exact Hpkg |].
      destruct G1 as (_&_&E&_), G2 as (_&_&E'&_). congruence.
Qed.

Lemma extractArgs_imports sig list nameFormat m ps m' v pkg :
  extractArgs sig list nameFormat m = (Ok ps, m') ->
  v ∈ list -> pkg ∈ type_pkgs (var_Type v) -> pkg_Name pkg <> pkgName m ->
  pkg_Path pkg ∈ dom (imports m').
Proof. apply extractArgs_from_imports. Qed.

(* ================================================================== *)
(** ** [Mock]: building the document *)
(* ================================================================== *)

(** The steps of [Mock] are put together from steady pieces. *)
Create HintDb steady.
#[local] Hint Resolve steady_ret steady_fail steady_panic steady_get
  steady_bind steady_for_each steady_extractArgs : steady.

Lemma steady_Mock_method (meth : Func) : steady (Mock_method meth).
Proof. unfold Mock_method. auto with steady. Qed.
#[local] Hint Resolve steady_Mock_method : steady.

Lemma steady_Mock_interface (tpkg : TPackage) (n : string) :
  steady (Mock_interface tpkg n).
Proof. unfold Mock_interface. repeat case_match; auto with steady. Qed.
#[local] Hint Resolve steady_Mock_interface : steady.

Lemma steady_Mock_package (name : list string) (pkg : AstPackage) :
  steady (Mock_package name pkg).
Proof. unfold Mock_package. case_match; auto with steady. Qed.
#[local] Hint Resolve steady_Mock_package : steady.

Lemma steady_Mock_doc (ord : MapOrder) (name : list string) :
  steady (Mock_doc ord name).
Proof. unfold Mock_doc. auto 7 with steady. Qed.

(** The descriptor that [Mock_method] returns. *)
Lemma Mock_method_Ok_inv meth m md m' :
  Mock_method meth m = (Ok md, m') ->
  extractArgs_defined m (func_Sig meth) (sig_Params (func_Sig meth)) = true /\
  extractArgs_defined m (func_Sig meth) (sig_Results (func_Sig meth)) = true /\
  md = {| method_Name := func_Name meth;
          method_Params :=
            imap (param_of m (func_Sig meth)
                    (length (sig_Params (func_Sig meth))) "in%d")
                 (sig_Params (func_Sig meth));
          method_Returns :=
            imap (param_of m (func_Sig meth)
                    (length (sig_Results (func_Sig meth))) "out%d")
                 (sig_Results (func_Sig meth)) |}.
Proof.
  unfold Mock_method.
  intros (Params & m1 & HP & (Returns & m2 & HR & [= <- <-])%bind_Ok)%bind_Ok.
  pose proof (steady_extractArgs (func_Sig meth) (sig_Params (func_Sig meth))
                "in%d" m) as (_&_&Hn&_).
  rewrite HP in Hn. simpl in Hn.
  apply extractArgs_Ok_inv in HP as [DP ->].
  apply extractArgs_Ok_inv in HR as [DR ->].
  rewrite (extractArgs_defined_pkgName m1 m _ _ Hn) in DR.
  simpl. split; [done|]. split; [done|]. f_equal.
  apply imap_ext. intros j v _. by apply param_of_pkgName.
Qed.

(** And it returns one whenever both slice expressions stay in bounds. *)
Lemma Mock_method_Ok meth m :
  extractArgs_defined m (func_Sig meth) (sig_Params (func_Sig meth)) = true ->
  extractArgs_defined m (func_Sig meth) (sig_Results (func_Sig meth)) = true ->
  exists md m', Mock_method meth m = (Ok md, m').
Proof.
  intros DP DR. unfold Mock_method. cbv zeta.
  set (sig := func_Sig meth) in *.
  destruct (extractArgs_spec sig (sig_Params sig) "in%d" m) as [m1 HP].
  rewrite DP in HP.
  pose proof (steady_extractArgs sig (sig_Params sig) "in%d" m) as (_&_&Hn&_).
  rewrite HP in Hn. simpl in Hn.
  destruct (extractArgs_spec sig (sig_Results sig) "out%d" m1) as [m2 HR].
  rewrite (extractArgs_defined_pkgName m1 m _ _ Hn), DR in HR.
  unfold bind. rewrite HP, HR. unfold ret. eauto.
Qed.

Lemma Mock_method_imports meth m md m' v pkg :
  Mock_method meth m = (Ok md, m') ->
  v ∈ sig_Params (func_Sig meth) ++ sig_Results (func_Sig meth) ->
  pkg ∈ type_pkgs (var_Type v) -> pkg_Name pkg <> pkgName m ->
  pkg_Path pkg ∈ dom (imports m').
Proof.
  unfold Mock_method.
  intros (Params & m1 & HP & (Returns & m2 & HR & [= <- <-])%bind_Ok)%bind_Ok.
  pose proof (steady_extractArgs (func_Sig meth) (sig_Params (func_Sig meth))
                "in%d" m) as G1. rewrite HP in G1. simpl in G1.
  pose proof (steady_extractArgs (func_Sig meth) (sig_Results (func_Sig meth))
                "out%d" m1) as G2. rewrite HR in G2. simpl in G2.
  intros [Hin|Hin]%elem_of_app Hpkg Hne.
  - destruct G2 as (_&_&_&G2). apply G2.
    by eapply extractArgs_imports.
  - eapply extractArgs_imports; [exact HR | exact Hin | exact Hpkg |].
    destruct G1 as (_&_&E&_). congruence.
Qed.

(** An element of a finished loop was handled, and what its handling
    added to the import set is still there at the end. *)
Lemma for_each_imports {A B : Type} (f : A -> M B) (l : list A) m bs m' a
    (path : string) :
  (forall a, steady (f a)) ->
  for_each f l m = (Ok bs, m') ->
  a ∈ l ->
  (forall m1 b m2, pkgName m1 = pkgName m -> f a m1 = (Ok b, m2) ->
                   path ∈ dom (imports m2)) ->
  path ∈ dom (imports m').
Proof.
  intros Hf Hrun Hin Hstep.
  pose proof (for_each_Ok f l m bs m' Hf Hrun) as HF.
  apply list_elem_of_lookup in Hin as [i Hi].
  destruct (Forall2_lookup_l _ _ _ _ _ HF Hi) as (b & _ & m1 & m2 & G1 & Hb & G2).
  destruct G1 as (_&_&E&_), G2 as (_&_&_&G2).
  apply G2. by eapply Hstep.
Qed.

Lemma for_each_Forall2 {A B : Type} (P : A -> B -> Prop) (f : A -> M B)
    (l : list A) : forall m bs m',
  (forall a m b m', f a m = (Ok b, m') -> P a b) ->
  for_each f l m = (Ok bs, m') -> Forall2 P l bs.
Proof.
  induction l as [|a l IH]; intros m bs m' HP; simpl.
  - intros [= <- <-]. constructor.
  - intros (b & m1 & Hb & (bs' & m2 & Hbs & [= <- <-])%bind_Ok)%bind_Ok.
    constructor; [by eapply HP | by eapply IH].
Qed.

Lemma Mock_interface_Ok_inv tpkg n m o m' :
  Mock_interface tpkg n m = (Ok o, m') ->
  exists iface iiface Methods,
    tpkg_Scope tpkg !! n = Some iface /\ obj_Iface iface = Some iiface /\
    for_each Mock_method iiface m = (Ok Methods, m') /\
    o = {| obj_InterfaceName := n; obj_Methods := Methods |}.
Proof.
  unfold Mock_interface.
  destruct (tpkg_Scope tpkg !! n) as [iface|]; [|done].
  destruct (obj_Iface iface) as [iiface|] eqn:Ei; [|done].
  intros (Methods & m1 & HM & [= <- <-])%bind_Ok. by exists iface, iiface, Methods.
Qed.

Lemma Mock_package_Ok_inv name pkg m objs m' :
  Mock_package name pkg m = (Ok objs, m') ->
  exists tpkg, ast_Check pkg = inr tpkg /\
               for_each (Mock_interface tpkg) name m = (Ok objs, m').
Proof.
  unfold Mock_package. destruct (ast_Check pkg) as [err|tpkg]; [done|]. eauto.
Qed.

Lemma Mock_doc_Ok_inv ord name m d m' :
  Mock_doc ord name m = (Ok d, m') ->
  exists Objects,
    for_each (Mock_package name) (range_map ord (pkgs m)).*2 m = (Ok Objects, m') /\
    d = {| doc_PackageName := pkgName m;
           doc_Objects := concat Objects;
           doc_Imports := moqImports ++ (range_map ord (imports m')).*1 |}.
Proof.
  unfold Mock_doc.
  intros (m0 & m1 & Hg & (Objects & m2 & HO &
    (m3 & m4 & Hg' & Hr)%bind_Ok)%bind_Ok)%bind_Ok.
  unfold get in Hg, Hg'. unfold ret in Hr. simplify_eq. by exists Objects.
Qed.

(* ================================================================== *)
(** ** The rendered text *)
(* ================================================================== *)

Lemma occurs_in_trans (s t u : string) :
  occurs_in s t -> occurs_in t u -> occurs_in s u.
Proof.
  intros (b1 & a1 & ->) (b2 & a2 & ->). exists (b2 +:+ b1), (a1 +:+ a2).
  by rewrite !append_assoc.
Qed.

Lemma occurs_in_cat (s : string) (l : list string) : s ∈ l -> occurs_in s (Str.cat l).
Proof.
  intros (l1 & l2 & ->)%list_elem_of_split.
  exists (Str.cat l1), (Str.cat l2). by rewrite cat_app, cat_cons.
Qed.

Lemma occurs_in_here (s t : string) : occurs_in s (s +:+ t).
Proof. by exists "", t. Qed.

Lemma occurs_in_skip (s p t : string) : occurs_in s t -> occurs_in s (p +:+ t).
Proof. intros (b & a & ->). exists (p +:+ b), a. by rewrite append_assoc. Qed.

(** Finds a piece of a text that is written as a chain of pieces. *)
Ltac find_piece :=
  cbn [Str.cat fold_right];
  repeat first [ apply occurs_in_here | apply occurs_in_skip ].

(** The text of an element occurs in the text of the whole [range]. *)
Lemma mapM_occurs_in {A : Type} (f : A -> option string) (l : list A) k x :
  mapM f l = Some k -> x ∈ l ->
  exists y, f x = Some y /\ occurs_in y (Str.cat k).
Proof.
  intros HF%mapM_Some_1 (i & Hi)%list_elem_of_lookup.
  destruct (Forall2_lookup_l _ _ _ _ _ HF Hi) as (y & Hy & Hfx).
  exists y. split; [done|]. apply occurs_in_cat.
  apply list_elem_of_lookup. eauto.
Qed.

Lemma tmpl_obj_is_Some (o : obj) :
  Forall method_renders (obj_Methods o) -> is_Some (tmpl_obj o).
Proof.
  intros HF. unfold tmpl_obj.
  assert (is_Some (mapM tmpl_usage (obj_Methods o))) as [usage ->].
  { apply mapM_is_Some. eapply Forall_impl; [exact HF|].
    intros m [[a Ha] [r Hr]]. unfold compose, tmpl_usage. rewrite Ha, Hr. by eexists. }
  assert (is_Some (mapM tmpl_field (obj_Methods o))) as [fields ->].
  { apply mapM_is_Some. eapply Forall_impl; [exact HF|].
    intros m [[a Ha] [r Hr]]. unfold compose, tmpl_field. rewrite Ha, Hr. by eexists. }
  assert (is_Some (mapM (tmpl_method o) (obj_Methods o))) as [methods ->].
  { apply mapM_is_Some. eapply Forall_impl; [exact HF|].
    intros m [[a Ha] [r Hr]]. unfold compose, tmpl_method. rewrite Ha, Hr. by eexists. }
  by eexists.
Qed.

Lemma moqTemplate_is_Some (d : doc) :
  Forall (fun o => Forall method_renders (obj_Methods o)) (doc_Objects d) ->
  is_Some (moqTemplate d).
Proof.
  intros HF. unfold moqTemplate.
  assert (is_Some (mapM tmpl_obj (doc_Objects d))) as [objects ->].
  { apply mapM_is_Some. eapply Forall_impl; [exact HF|].
    intros o Ho. by apply tmpl_obj_is_Some. }
  by eexists.
Qed.

(** The descriptors of [extractArgs] render: one marked variadic has a
    type of two bytes or more. *)
Lemma param_of_renders m sig listLen nameFormat ii p :
  is_Some (param_TypeString (param_of m sig listLen nameFormat ii p)).
Proof.
  unfold param_TypeString, param_of. cbn [param_Variadic param_Type].
  destruct (_ && _ && _) eqn:E; [|by eexists].
  apply andb_true_iff in E as [_ E%prefix_brackets_length].
  destruct (slice_from_2_Some _ E) as [rest ->]. by eexists.
Qed.

Lemma Mock_method_renders meth m md m' :
  Mock_method meth m = (Ok md, m') -> method_renders md.
Proof.
  intros (_ & _ & ->)%Mock_method_Ok_inv. split.
  - unfold Arglist. cbn [method_Params].
    match goal with |- is_Some (mapM _ ?l ≫= _) =>
      assert (is_Some (mapM param_String l)) as [params ->] end; [|by eexists].
    apply mapM_is_Some, Forall_lookup. intros i x.
    rewrite list_lookup_imap. intros (v & _ & ->)%fmap_Some.
    unfold compose, param_String.
    destruct (param_of_renders m (func_Sig meth)
                (length (sig_Params (func_Sig meth))) "in%d" i v) as [ts ->].
    by eexists.
  - unfold ReturnArglist. cbn [method_Returns].
    match goal with |- is_Some (mapM _ ?l ≫= _) =>
      assert (is_Some (mapM param_TypeString l)) as [params ->] end; [|by eexists].
    apply mapM_is_Some, Forall_lookup. intros i x.
    rewrite list_lookup_imap. intros (v & _ & ->)%fmap_Some.
    apply param_of_renders.
Qed.

Lemma Forall2_right {A B : Type} (Q : B -> Prop) (l : list A) (k : list B) :
  Forall2 (fun _ y => Q y) l k -> Forall Q k.
Proof. induction 1; by constructor. Qed.

Lemma Mock_doc_methods_render ord name m d m' :
  Mock_doc ord name m = (Ok d, m') ->
  Forall (fun o => Forall method_renders (obj_Methods o)) (doc_Objects d).
Proof.
  intros (Objects & HO & ->)%Mock_doc_Ok_inv. cbn [doc_Objects].
  apply Forall_concat.
  eapply Forall2_right, for_each_Forall2; [|exact HO].
  intros pkg m1 objs m2 (tpkg & _ & Hn)%Mock_package_Ok_inv.
  eapply Forall2_right, for_each_Forall2; [|exact Hn].
  intros n m3 o m4
    (iface & iiface & Methods & _ & _ & HM & ->)%Mock_interface_Ok_inv.
  cbn [obj_Methods].
  eapply Forall2_right, for_each_Forall2; [|exact HM].
  intros ????. apply Mock_method_renders.
Qed.

(** [Mock] renders every document it builds. *)
Lemma Mock_doc_renders ord name m d m' :
  Mock_doc ord name m = (Ok d, m') -> is_Some (moqTemplate d).
Proof. intros H. eapply moqTemplate_is_Some, Mock_doc_methods_render, H. Qed.

(* ================================================================== *)
(** ** Signature extraction *)
(* ================================================================== *)

(** C3.  A method whose extraction returns gets one descriptor per
    parameter and per result, in order.  The descriptor at position
    [k + 1] of the parameters is named [in<k+1>] when the declaration
    left the name empty, the one at position [k + 1] of the results
    [out<k+1>], each list counted by itself from 1; a declared name is
    kept.  Extraction returns for every well-formed signature whose
    result list keeps the slice expression in bounds. *)
Theorem Mock_method_positional_names (meth : Func) (m : Mocker) :
  sig_wf (func_Sig meth) = true ->
  extractArgs_defined m (func_Sig meth) (sig_Results (func_Sig meth)) = true ->
  exists md m',
    Mock_method meth m = (Ok md, m') /\
    length (method_Params md) = length (sig_Params (func_Sig meth)) /\
    length (method_Returns md) = length (sig_Results (func_Sig meth)) /\
    (forall k v, sig_Params (func_Sig meth) !! k = Some v ->
       exists p, method_Params md !! k = Some p /\
         param_Name p =
           if Str.is_empty (var_Name v) then "in" +:+ Str.decimal (k + 1)
           else var_Name v) /\
    (forall k v, sig_Results (func_Sig meth) !! k = Some v ->
       exists p, method_Returns md !! k = Some p /\
         param_Name p =
           if Str.is_empty (var_Name v) then "out" +:+ Str.decimal (k + 1)
           else var_Name v).
Proof.
  intros Hwf DR.
  pose proof (sig_wf_defined m _ Hwf) as DP.
  destruct (Mock_method_Ok meth m DP DR) as (md & m' & Hrun).
  exists md, m'. split; [done|].
  apply Mock_method_Ok_inv in Hrun as (_ & _ & ->).
  cbn [method_Params method_Returns]. rewrite !length_imap.
  split; [done|]. split; [done|]. split.
  - intros k v Hk. eexists. rewrite list_lookup_imap, Hk. split; [done|].
    cbn [param_of param_Name]. by rewrite Sprintf_in.
  - intros k v Hk. eexists. rewrite list_lookup_imap, Hk. split; [done|].
    cbn [param_of param_Name]. by rewrite Sprintf_out.
Qed.

Lemma Mock_method_positional_names_witness :
  exists md m',
    Mock_method Ex.Copy Ex.demo = (Ok md, m') /\
    length (method_Params md) = 3 /\
    length (method_Returns md) = 2 /\
    (forall k v, sig_Params (func_Sig Ex.Copy) !! k = Some v ->
       exists p, method_Params md !! k = Some p /\
         param_Name p =
           if Str.is_empty (var_Name v) then "in" +:+ Str.decimal (k + 1)
           else var_Name v) /\
    (forall k v, sig_Results (func_Sig Ex.Copy) !! k = Some v ->
       exists p, method_Returns md !! k = Some p /\
         param_Name p =
           if Str.is_empty (var_Name v) then "out" +:+ Str.decimal (k + 1)
           else var_Name v).
Proof.
  apply (Mock_method_positional_names Ex.Copy Ex.demo); vm_compute; reflexivity.
Defined.




(** C10.  [Pick(xs ...int) T]: the signature is variadic, so the slice
    expression is evaluated on the last result too; [T] prints with one
    byte and [extractArgs] panics, and [Mock] with it. *)
Theorem extractArgs_panics_on_short_result :
  sig_wf (func_Sig Ex.Pick) = true /\
  extractArgs (func_Sig Ex.Pick) (sig_Results (func_Sig Ex.Pick)) "out%d" Ex.demo
    = (Panic slice_bounds_panic, Ex.demo) /\
  Mock ascending Ex.demo Ex.buffer ["Picker"]
    = (Ex.demo, Ex.buffer, Panic slice_bounds_panic).
Proof. vm_compute. done. Qed.

(** [Tail(xs ...int) []int]: by the same test the result, a slice, is
    marked variadic, and the template prints the result type [...int]. *)
Example Mock_method_marks_last_result :
  exists md,
    Mock_method Ex.Tail Ex.demo = (Ok md, Ex.demo) /\
    method_Returns md = [{| param_Name := "out1"; param_Type := "[]int";
                           param_Variadic := true |}] /\
    ReturnArglist md = Some "...int".
Proof. eexists. split; [vm_compute; reflexivity|]. by split. Qed.

(* ================================================================== *)
(** ** The rendered method bodies *)
(* ================================================================== *)

Lemma cat_middle (n k : nat) (l : list string) :
  Str.cat l =
  Str.cat (take n l) +:+ Str.cat (take k (drop n l)) +:+ Str.cat (drop k (drop n l)).
Proof. by rewrite <- !cat_app, !take_drop. Qed.

Lemma moqTemplate_method (d : doc) (text : string) (o : obj) (md : method) :
  moqTemplate d = Some text -> o ∈ doc_Objects d -> md ∈ obj_Methods o ->
  exists impl, tmpl_method o md = Some impl /\ occurs_in impl text.
Proof.
  unfold moqTemplate.
  intros (objects & Hobjs & [= <-])%bind_Some Ho Hmd.
  destruct (mapM_occurs_in _ _ _ _ Hobjs Ho) as (t & Ht & Hoc).
  revert Ht. unfold tmpl_obj.
  intros (usage & _ & (fields & _ &
    (methods & Hms & [= <-])%bind_Some)%bind_Some)%bind_Some.
  destruct (mapM_occurs_in _ _ _ _ Hms Hmd) as (impl & Himpl & Hoc').
  exists impl. split; [done|].
  eapply occurs_in_trans; [exact Hoc'|].
  eapply occurs_in_trans; [|eapply occurs_in_trans; [exact Hoc|]];
    find_piece.
Qed.

(** C2.  In the text rendered for a document that [Mock] built, every
    method of every object has its implementation, and in it the line
    [func (mock *<I>Mock) <N>(<args>) <rets> {] is followed at once by
    the test of [mock.<N>Func] against nil with its panic, and only then
    by the locking of the call log. *)
Theorem moqTemplate_nil_check_first (ord : MapOrder) (name : list string)
    (m m' : Mocker) (d : doc) (o : obj) (md : method) :
  Mock_doc ord name m = (Ok d, m') ->
  o ∈ doc_Objects d -> md ∈ obj_Methods o ->
  exists text args rets,
    moqTemplate d = Some text /\
    Arglist md = Some args /\ ReturnArglist md = Some rets /\
    occurs_in
      (Str.cat [
         "func (mock *"; obj_InterfaceName o; "Mock) "; method_Name md;
           "("; args; ") "; rets; " {";
         Str.nl; Str.tab; "if mock."; method_Name md; "Func == nil {";
         Str.nl; Str.tab; Str.tab; "panic("; Str.dq; "moq: ";
           obj_InterfaceName o; "Mock."; method_Name md;
           "Func is nil but was just called"; Str.dq; ")";
         Str.nl; Str.tab; "}";
         Str.nl; Str.tab; "mock.CallsTo.lock"; method_Name md; ".Lock()"])
      text.
Proof.
  intros Hdoc Ho Hmd.
  destruct (Mock_doc_renders _ _ _ _ _ Hdoc) as [text Htext].
  destruct (moqTemplate_method d text o md Htext Ho Hmd) as (impl & Himpl & Hoc).
  revert Himpl. unfold tmpl_method.
  intros (args & Hargs & (rets & Hrets & Heq)%bind_Some)%bind_Some.
  apply (inj Some) in Heq. subst impl.
  exists text, args, rets. split; [done|]. split; [done|]. split; [done|].
  eapply occurs_in_trans; [|exact Hoc].
  eexists _, _. exact (cat_middle 7 34 _).
Qed.

Lemma moqTemplate_nil_check_first_witness :
  exists text args rets,
    moqTemplate Ex.Greeter_doc = Some text /\
    Arglist Ex.Greet_method = Some args /\
    ReturnArglist Ex.Greet_method = Some rets /\
    occurs_in
      (Str.cat [
         "func (mock *"; "Greeter"; "Mock) "; "Greet";
           "("; args; ") "; rets; " {";
         Str.nl; Str.tab; "if mock."; "Greet"; "Func == nil {";
         Str.nl; Str.tab; Str.tab; "panic("; Str.dq; "moq: ";
           "Greeter"; "Mock."; "Greet";
           "Func is nil but was just called"; Str.dq; ")";
         Str.nl; Str.tab; "}";
         Str.nl; Str.tab; "mock.CallsTo.lock"; "Greet"; ".Lock()"])
      text.
Proof.
  apply (moqTemplate_nil_check_first ascending ["Greeter"] Ex.demo Ex.demo
           Ex.Greeter_doc Ex.Greeter_obj Ex.Greet_method).
  - vm_compute. reflexivity.
  - apply list_elem_of_here.
  - apply list_elem_of_here.
Defined.

(** The scenario of the specification: [Greeter] with
    [Greet(name string) string]. *)
Example Greeter_scenario :
  exists text,
    Mock ascending Ex.demo Ex.buffer ["Greeter"]
      = (Ex.demo, {| w_written := text; w_room := None |}, Ok tt) /\
    String.prefix "package demo" text = true /\
    Str.Contains text "type GreeterMock struct {" = true /\
    Str.Contains text "GreetFunc func(name string) string" = true /\
    Str.Contains text "func (mock *GreeterMock) Greet(name string) string {" = true /\
    Str.Contains text "return mock.GreetFunc(name)" = true.
Proof. eexists. split; [vm_compute; reflexivity|]. vm_compute. done. Qed.

(* ================================================================== *)
(** ** Iteration orders *)
(* ================================================================== *)

Lemma ascending_ok : MapOrder_ok ascending.
Proof. intros A l. reflexivity. Qed.

Lemma descending_ok : MapOrder_ok descending.
Proof. intros A l. unfold descending. by rewrite reverse_Permutation. Qed.

(** One walk, in an order that Go may take. *)
Section Walk.
Context (ord : MapOrder) (Hord : MapOrder_ok ord).

Lemma range_map_Permutation {V : Type} (m : gmap string V) :
  range_map ord m ≡ₚ map_to_list m.
Proof. apply Hord. Qed.

Lemma range_map_keys {V : Type} (m : gmap string V) (k : string) :
  k ∈ (range_map ord m).*1 <-> k ∈ dom m.
Proof.
  rewrite range_map_Permutation, elem_of_dom, list_elem_of_fmap. split.
  - intros ([k' v] & -> & Hin%elem_of_map_to_list). by exists v.
  - intros [v Hv]. exists (k, v). split; [done|]. by apply elem_of_map_to_list.
Qed.

Lemma range_map_values {V : Type} (m : gmap string V) (k : string) (v : V) :
  m !! k = Some v -> v ∈ (range_map ord m).*2.
Proof.
  intros Hk. rewrite range_map_Permutation.
  apply list_elem_of_fmap. exists (k, v). split; [done|].
  by apply elem_of_map_to_list.
Qed.

Lemma range_map_keys_NoDup {V : Type} (m : gmap string V) :
  NoDup (range_map ord m).*1.
Proof. rewrite range_map_Permutation. apply NoDup_fst_map_to_list. Qed.

Lemma range_map_length {V : Type} (m : gmap string V) :
  length (range_map ord m) = size m.
Proof. rewrite range_map_Permutation. apply length_map_to_list. Qed.

(** A map of at most one entry is walked in one way only. *)
Lemma range_map_small {V : Type} (m : gmap string V) :
  size m <= 1 -> range_map ord m = map_to_list m.
Proof.
  intros Hsize. pose proof (range_map_Permutation m) as HP.
  rewrite <- length_map_to_list in Hsize. unfold range_map in *.
  destruct (map_to_list m) as [|x [|y l]]; simpl in Hsize; [| |lia].
  - by apply Permutation_nil_r in HP.
  - by apply Permutation_singleton_r in HP.
Qed.

End Walk.

Lemma find_first {A : Type} (f : A -> bool) (l : list A) (x : A) :
  List.find f l = Some x ->
  exists before after,
    l = before ++ x :: after /\ Forall (fun y => f y = false) before /\ f x = true.
Proof.
  induction l as [|a l IH]; simpl; [done|].
  destruct (f a) eqn:Ea.
  - intros [= ->]. by exists [], l.
  - intros (before & after & -> & HF & Hx)%IH.
    exists (a :: before), after. split; [done|]. split; [by constructor | done].
Qed.

(* ================================================================== *)
(** ** [New] *)
(* ================================================================== *)

(** C9.  [New] without a package name, on a directory that parses into
    packages (no package has an empty name): either every package name
    contains ["_test"] (so also when there is no package) and [New]
    returns the error of the undetermined package name, or [New] returns
    a Mocker for the first package, in the order of the walk, whose name
    does not contain ["_test"]. *)
Theorem New_default_package (ord : MapOrder) (parseDir : ParseDir)
    (src : string) (parsed : gmap string AstPackage) :
  MapOrder_ok ord ->
  parseDir src = inr parsed ->
  (forall k, k ∈ dom parsed -> k <> "") ->
  (New ord parseDir src "" = inl ErrNoPackageName /\
   forall k, k ∈ dom parsed -> Str.Contains k "_test" = true)
  \/
  (exists m before after,
     New ord parseDir src "" = inr m /\
     (range_map ord parsed).*1 = before ++ pkgName m :: after /\
     Forall (fun k => Str.Contains k "_test" = true) before /\
     Str.Contains (pkgName m) "_test" = false /\
     pkgName m ∈ dom parsed /\
     pkgs m = parsed /\ imports m = ∅).
Proof.
  intros Hord Hparse Hnames. unfold New. rewrite Hparse. cbn [Str.is_empty].
  destruct (List.find _ _) as [k|] eqn:Hfind.
  - right. apply find_first in Hfind as (before & after & Hkeys & HF & Hk).
    assert (k ∈ dom parsed) as Hdom.
    { apply (range_map_keys ord Hord parsed k). rewrite Hkeys. set_solver. }
    destruct (Str.is_empty k) eqn:Ek.
    { apply is_empty_true in Ek. by destruct (Hnames k Hdom). }
    eexists _, before, after. split; [done|]. cbn [pkgName pkgs imports].
    split; [done|]. split.
    { eapply Forall_impl; [exact HF|]. intros y Hy. by apply negb_false_iff. }
    split; [by apply negb_true_iff|]. done.
  - left. split; [done|]. intros k Hk.
    apply (range_map_keys ord Hord parsed k), list_elem_of_In in Hk.
    apply negb_false_iff. by eapply find_none in Hfind.
Qed.

Lemma New_default_package_witness :
  (New ascending Ex.mixed_dir "." "" = inl ErrNoPackageName /\
   forall k, k ∈ dom Ex.mixed -> Str.Contains k "_test" = true)
  \/
  (exists m before after,
     New ascending Ex.mixed_dir "." "" = inr m /\
     (range_map ascending Ex.mixed).*1 = before ++ pkgName m :: after /\
     Forall (fun k => Str.Contains k "_test" = true) before /\
     Str.Contains (pkgName m) "_test" = false /\
     pkgName m ∈ dom Ex.mixed /\
     pkgs m = Ex.mixed /\ imports m = ∅).
Proof.
  apply (New_default_package ascending Ex.mixed_dir "." Ex.mixed).
  - apply ascending_ok.
  - reflexivity.
  - intros k [v Hv]%elem_of_dom ->. vm_compute in Hv. discriminate.
Defined.

(* ================================================================== *)
(** ** The objects of the document *)
(* ================================================================== *)

Lemma Forall2_names {A B : Type} (f : B -> A) (l : list A) (k : list B) :
  Forall2 (fun a b => f b = a) l k -> f <$> k = l.
Proof. induction 1 as [|a b l k Hab _ IH]; csimpl; [done | by rewrite Hab, IH]. Qed.

Lemma concat_names {A B C : Type} (f : B -> A) (name : list A)
    (l : list C) (k : list (list B)) :
  Forall2 (fun _ objs => f <$> objs = name) l k ->
  f <$> concat k = concat (replicate (length l) name).
Proof.
  induction 1 as [|a b l k Hab _ IH]; csimpl; [done|].
  by rewrite fmap_app, Hab, IH.
Qed.

Lemma Mock_package_names name pkg m objs m' :
  Mock_package name pkg m = (Ok objs, m') ->
  obj_InterfaceName <$> objs = name.
Proof.
  intros (tpkg & _ & Hrun)%Mock_package_Ok_inv.
  apply Forall2_names. eapply for_each_Forall2; [|exact Hrun].
  by intros n m1 o m2 (? & ? & ? & _ & _ & _ & ->)%Mock_interface_Ok_inv.
Qed.

(** C7.  The interface names of the objects of a document are the
    requested names, once for each parsed package: they are pairwise
    distinct when one package was parsed and the requested names are
    pairwise distinct. *)
Theorem Mock_doc_object_names (ord : MapOrder) (name : list string)
    (m m' : Mocker) (d : doc) :
  MapOrder_ok ord ->
  Mock_doc ord name m = (Ok d, m') ->
  obj_InterfaceName <$> doc_Objects d = concat (replicate (size (pkgs m)) name) /\
  (size (pkgs m) = 1 -> NoDup name ->
   NoDup (obj_InterfaceName <$> doc_Objects d)).
Proof.
  intros Hord (Objects & HO & ->)%Mock_doc_Ok_inv. cbn [doc_Objects].
  assert (obj_InterfaceName <$> concat Objects
          = concat (replicate (size (pkgs m)) name)) as Hnames.
  { rewrite <- (range_map_length ord Hord (pkgs m)).
    rewrite <- (length_fmap snd (range_map ord (pkgs m))).
    apply concat_names. eapply for_each_Forall2; [|exact HO].
    intros pkg m1 objs m2. apply Mock_package_names. }
  split; [done|]. intros Hone Hnd. rewrite Hnames, Hone. simpl.
  by rewrite app_nil_r.
Qed.

Lemma Mock_doc_object_names_witness :
  obj_InterfaceName <$> doc_Objects Ex.Greeter_doc
    = concat (replicate (size (pkgs Ex.demo)) ["Greeter"]) /\
  (size (pkgs Ex.demo) = 1 -> NoDup ["Greeter"] ->
   NoDup (obj_InterfaceName <$> doc_Objects Ex.Greeter_doc)).
Proof.
  apply (Mock_doc_object_names ascending ["Greeter"] Ex.demo Ex.demo Ex.Greeter_doc).
  - apply ascending_ok.
  - vm_compute. reflexivity.
Defined.

(** C7, as stated, fails: with two parsed packages that both declare
    [Greeter], the one requested name yields two descriptors of that
    name. *)
Lemma Mock_doc_repeats_names :
  exists d m',
    Mock_doc ascending ["Greeter"] Ex.twin = (Ok d, m') /\
    obj_InterfaceName <$> doc_Objects d = ["Greeter"; "Greeter"] /\
    ~ NoDup (obj_InterfaceName <$> doc_Objects d).
Proof.
  eexists _, _. split; [vm_compute; reflexivity|]. split; [reflexivity|].
  cbn. intros H. apply NoDup_cons in H as [H _]. apply H, list_elem_of_here.
Qed.

(* ================================================================== *)
(** ** The state of the Mocker *)
(* ================================================================== *)

Lemma Mock_grows (ord : MapOrder) (m : Mocker) (w : Writer) (name : list string) :
  grows m (Mock ord m w name).1.1.
Proof.
  unfold Mock. destruct (length name =? 0); [reflexivity|].
  pose proof (steady_Mock_doc ord name m) as G.
  destruct (Mock_doc ord name m) as [[d|e|msg] m1]; simpl in *; try done.
  by destruct (Execute w d).
Qed.

(** C8.  The document of a call is built from nothing but the Mocker:
    its package name is the Mocker's, and its imports are ["sync"] and
    then the paths of the Mocker's import set as it is after the
    extraction.  That set is a field of the Mocker; [New] makes it empty
    and a call to [Mock] changes nothing of the Mocker but to add paths
    to it.  So a later call on the same Mocker lists every path that an
    earlier call added. *)
Theorem Mock_keeps_imports (ord : MapOrder) (m : Mocker) (w : Writer)
    (name : list string) :
  MapOrder_ok ord ->
  grows m (Mock ord m w name).1.1 /\
  (forall d m', Mock_doc ord name m = (Ok d, m') ->
     doc_PackageName d = pkgName m /\
     exists paths,
       doc_Imports d = "sync" :: paths /\ NoDup paths /\
       (forall path, path ∈ paths <-> path ∈ dom (imports m')) /\
       dom (imports m) ⊆ dom (imports m')) /\
  (forall parseDir src packageName m0,
     New ord parseDir src packageName = inr m0 -> imports m0 = ∅).
Proof.
  intros Hord. split; [apply Mock_grows|]. split.
  - intros d m' Hdoc.
    pose proof (steady_Mock_doc ord name m) as (_&_&_&G).
    rewrite Hdoc in G. simpl in G.
    apply Mock_doc_Ok_inv in Hdoc as (Objects & _ & ->). split; [done|].
    exists (range_map ord (imports m')).*1. split; [done|].
    split; [by apply range_map_keys_NoDup|]. split; [|done].
    intros path. by apply range_map_keys.
  - intros parseDir src0 packageName m0. unfold New.
    destruct (parseDir src0) as [err|parsed]; [done|].
    destruct (Str.is_empty _); [done|]. by intros [= <-].
Qed.

Lemma Mock_keeps_imports_witness :
  grows Ex.demo (Mock ascending Ex.demo Ex.buffer ["Copier"]).1.1 /\
  (forall d m', Mock_doc ascending ["Copier"] Ex.demo = (Ok d, m') ->
     doc_PackageName d = pkgName Ex.demo /\
     exists paths,
       doc_Imports d = "sync" :: paths /\ NoDup paths /\
       (forall path, path ∈ paths <-> path ∈ dom (imports m')) /\
       dom (imports Ex.demo) ⊆ dom (imports m')) /\
  (forall parseDir src packageName m0,
     New ascending parseDir src packageName = inr m0 -> imports m0 = ∅).
Proof.
  apply (Mock_keeps_imports ascending Ex.demo Ex.buffer ["Copier"]).
  apply ascending_ok.
Defined.

(** C8, as stated, fails: after a call for [Copier], which imports
    [context] and [io], a call for [Greeter] on the same Mocker lists
    both paths, and writes another text than on a new Mocker. *)
Lemma Mock_second_call_sees_first :
  let m1 := (Mock ascending Ex.demo Ex.buffer ["Copier"]).1.1 in
  (Mock_doc ascending ["Greeter"] Ex.demo).1 = Ok Ex.Greeter_doc /\
  (Mock_doc ascending ["Greeter"] m1).1
    = Ok {| doc_PackageName := "demo"; doc_Objects := [Ex.Greeter_obj];
            doc_Imports := ["sync"; "context"; "io"] |} /\
  w_written (Mock ascending m1 Ex.buffer ["Greeter"]).1.2
    <> w_written (Mock ascending Ex.demo Ex.buffer ["Greeter"]).1.2.
Proof.
  cbv zeta. split; [vm_compute; reflexivity|]. split; [vm_compute; reflexivity|].
  apply String.eqb_neq. vm_compute. reflexivity.
Qed.

(* ================================================================== *)
(** ** What reaches the writer *)
(* ================================================================== *)

Lemma raises_ret {A : Type} (a : A) P : raises (ret a) P.
Proof. by intros m e m'. Qed.

Lemma raises_panic {A : Type} (msg : string) P : raises (@panic A msg) P.
Proof. by intros m e m'. Qed.

Lemma raises_fail {A : Type} (e : Error) (P : Error -> Prop) :
  P e -> raises (@fail A e) P.
Proof. by intros He m e' m' [= <- _]. Qed.

Lemma raises_get P : raises get P.
Proof. by intros m e m'. Qed.

Lemma raises_bind {A B : Type} (c : M A) (k : A -> M B) P :
  raises c P -> (forall a, raises (k a) P) -> raises (bind c k) P.
Proof.
  intros Hc Hk m e m'. unfold bind.
  destruct (c m) as [[a|e1|msg] m1] eqn:Hcm; [|intros [= <- <-]|done].
  - apply Hk.
  - by eapply Hc.
Qed.

Lemma raises_for_each {A B : Type} (f : A -> M B) (l : list A) P :
  (forall a, raises (f a) P) -> raises (for_each f l) P.
Proof.
  intros Hf. induction l as [|a l IH]; simpl.
  - apply raises_ret.
  - apply raises_bind; [apply Hf|]. intros b.
    apply raises_bind; [apply IH|]. intros bs. apply raises_ret.
Qed.

Lemma raises_extractArgs sig list nameFormat P :
  raises (extractArgs sig list nameFormat) P.
Proof.
  intros m e m'. destruct (extractArgs_spec sig list nameFormat m) as [m1 ->].
  by destruct (extractArgs_defined m sig list).
Qed.

Create HintDb raises.
#[local] Hint Resolve raises_ret raises_fail raises_panic raises_get
  raises_bind raises_for_each raises_extractArgs : raises.
#[local] Hint Extern 1 (extraction_error _) => exact I : raises.

Lemma raises_Mock_method meth : raises (Mock_method meth) extraction_error.
Proof. unfold Mock_method. auto with raises. Qed.
#[local] Hint Resolve raises_Mock_method : raises.

Lemma raises_Mock_interface tpkg n :
  raises (Mock_interface tpkg n) extraction_error.
Proof. unfold Mock_interface. repeat case_match; auto with raises. Qed.
#[local] Hint Resolve raises_Mock_interface : raises.

Lemma raises_Mock_package name pkg :
  raises (Mock_package name pkg) extraction_error.
Proof. unfold Mock_package. case_match; auto with raises. Qed.
#[local] Hint Resolve raises_Mock_package : raises.

(** [Mock] returns no other errors from the extraction. *)
Lemma raises_Mock_doc ord name : raises (Mock_doc ord name) extraction_error.
Proof. unfold Mock_doc. auto 7 with raises. Qed.

(** C6.  A call that returns any error but the writer's has written
    nothing, and so has a call that panics.  The writer's error comes
    with the first bytes of the document written, as many as the writer
    had room for; a call that returns no error has written the whole
    document. *)
Theorem Mock_output (ord : MapOrder) (m : Mocker) (w : Writer)
    (name : list string) :
  match Mock ord m w name with
  | (m', w', Ok _) =>
      exists d text,
        Mock_doc ord name m = (Ok d, m') /\ moqTemplate d = Some text /\
        w_written w' = w_written w +:+ text
  | (m', w', Err ErrWrite) =>
      exists d text room,
        Mock_doc ord name m = (Ok d, m') /\ moqTemplate d = Some text /\
        w_room w = Some room /\ room < String.length text /\
        w_written w' = w_written w +:+ string_take room text
  | (m', w', Err _) => w' = w
  | (m', w', Panic _) => w' = w
  end.
Proof.
  unfold Mock. destruct (length name =? 0); [done|].
  destruct (Mock_doc ord name m) as [[d|e|msg] m1] eqn:Hdoc; [| |done].
  2:{ apply raises_Mock_doc in Hdoc. by destruct e. }
  destruct (Mock_doc_renders _ _ _ _ _ Hdoc) as [text Htext].
  unfold Execute, Write. rewrite Htext.
  destruct (w_room w) as [room|] eqn:Hroom.
  - destruct (Nat.leb_spec (String.length text) room).
    + by exists d, text.
    + by exists d, text, room.
  - by exists d, text.
Qed.

(** C6, as stated, fails: a writer with room for five bytes makes [Mock]
    return the writer's error after the bytes [packa]. *)
Lemma Mock_error_after_partial_write :
  exists m' w',
    Mock ascending Ex.demo (Ex.pipe 5) ["Greeter"] = (m', w', Err ErrWrite) /\
    w_written w' = "packa" /\
    w_written w' <> w_written (Ex.pipe 5).
Proof.
  eexists _, _. split; [vm_compute; reflexivity|]. split; [reflexivity|]. done.
Qed.

(* ================================================================== *)
(** ** Qualifiers and imports *)
(* ================================================================== *)

(** A package of another name than the target's, mentioned in a
    signature of a requested interface, is in the import set when the
    extraction has returned. *)
Lemma Mock_doc_imports ord name m d m'
    pname apkg tpkg n iface iiface meth v pkg :
  MapOrder_ok ord ->
  Mock_doc ord name m = (Ok d, m') ->
  pkgs m !! pname = Some apkg -> ast_Check apkg = inr tpkg ->
  n ∈ name -> tpkg_Scope tpkg !! n = Some iface ->
  obj_Iface iface = Some iiface -> meth ∈ iiface ->
  v ∈ sig_Params (func_Sig meth) ++ sig_Results (func_Sig meth) ->
  pkg ∈ type_pkgs (var_Type v) -> pkg_Name pkg <> pkgName m ->
  pkg_Path pkg ∈ dom (imports m').
Proof.
  intros Hord (Objects & HO & _)%Mock_doc_Ok_inv Hp Hc Hn Hi Hii Hmeth Hv Hpkg Hne.
  eapply (for_each_imports _ _ _ _ _ apkg);
    [apply steady_Mock_package | exact HO | by eapply range_map_values |].
  intros m1 objs m2 E1 (tpkg' & Hc' & Hrun)%Mock_package_Ok_inv.
  assert (tpkg' = tpkg) as -> by congruence.
  eapply (for_each_imports _ _ _ _ _ n);
    [apply steady_Mock_interface | exact Hrun | exact Hn |].
  intros m3 o m4 E3
    (iface' & iiface' & Methods & Hi' & Hii' & HM & _)%Mock_interface_Ok_inv.
  assert (iiface' = iiface) as -> by congruence.
  eapply (for_each_imports _ _ _ _ _ meth);
    [apply steady_Mock_method | exact HM | exact Hmeth |].
  intros m5 md m6 E5 Hrun'.
  eapply Mock_method_imports; [exact Hrun' | exact Hv | exact Hpkg |].
  congruence.
Qed.

Lemma count_occ_NoDup (l : list string) (x : string) :
  NoDup l -> x ∈ l -> count_occ string_dec l x = 1.
Proof.
  intros Hnd Hin. apply NoDup_ListNoDup in Hnd. apply list_elem_of_In in Hin.
  by apply NoDup_count_occ'.
Qed.

(** C5.  The qualifier of a package (packages have names) is empty
    exactly when the package has the name of the target package;
    otherwise it is the name of the package, and the path of the package
    is put into the import set.  So
    a package is qualified in one way throughout a request.  In the
    document, the path of every package of another name that a signature
    of a requested interface mentions stands once in the imports, if it
    is not the path ["sync"]; and the import block of the rendered text
    has one line for each import of the document, in their order. *)
Theorem Mock_qualifier_and_imports (ord : MapOrder) (name : list string)
    (m m' : Mocker) (d : doc) :
  MapOrder_ok ord ->
  Mock_doc ord name m = (Ok d, m') ->
  (forall pkg st, pkgName st = pkgName m ->
     (pkg_Name pkg <> "" ->
      (packageQualifier pkg st).1 = "" <-> pkg_Name pkg = pkgName m) /\
     (pkg_Name pkg = pkgName m -> packageQualifier pkg st = ("", st)) /\
     (pkg_Name pkg <> pkgName m ->
      packageQualifier pkg st =
      (pkg_Name pkg, set_imports st (<[pkg_Path pkg := true]> (imports st))))) /\
  (forall pkg st1 st2, pkgName st1 = pkgName m -> pkgName st2 = pkgName m ->
     (packageQualifier pkg st1).1 = (packageQualifier pkg st2).1) /\
  (forall pname apkg tpkg n iface iiface meth v pkg,
     pkgs m !! pname = Some apkg -> ast_Check apkg = inr tpkg ->
     n ∈ name -> tpkg_Scope tpkg !! n = Some iface ->
     obj_Iface iface = Some iiface -> meth ∈ iiface ->
     v ∈ sig_Params (func_Sig meth) ++ sig_Results (func_Sig meth) ->
     pkg ∈ type_pkgs (var_Type v) ->
     pkg_Name pkg <> pkgName m -> pkg_Path pkg <> "sync" ->
     count_occ string_dec (doc_Imports d) (pkg_Path pkg) = 1) /\
  (exists text,
     moqTemplate d = Some text /\
     occurs_in
       (Str.cat [
          "import (";
          Str.cat (map (fun path => Str.cat [Str.nl; Str.tab; Str.dq; path; Str.dq])
                       (doc_Imports d));
          Str.nl; ")"; Str.nl])
       text).
Proof.
  intros Hord Hdoc. split; [|split; [|split]].
  - intros pkg st Hst. unfold packageQualifier. rewrite Hst.
    destruct (String.eqb_spec (pkgName m) (pkg_Name pkg)) as [E|E]; simpl.
    + split; [by split|]. split; [done|]. by intros [].
    + split; [|split; [by intros ?|done]].
      intros Hname. split; [by intros ?|by intros ?].
  - intros pkg st1 st2 H1 H2. by rewrite !packageQualifier_text, H1, H2.
  - intros pname apkg tpkg n iface iiface meth v pkg Hp Hc Hn Hi Hii Hmeth Hv
      Hpkg Hne Hsync.
    pose proof (Mock_doc_imports _ _ _ _ _ _ _ _ _ _ _ _ _ _ Hord Hdoc
                  Hp Hc Hn Hi Hii Hmeth Hv Hpkg Hne) as Hin.
    apply Mock_doc_Ok_inv in Hdoc as (Objects & _ & ->).
    cbn [doc_Imports moqImports app]. rewrite count_occ_cons_neq; [|done].
    apply count_occ_NoDup; [by apply range_map_keys_NoDup|].
    by apply range_map_keys.
  - destruct (Mock_doc_renders _ _ _ _ _ Hdoc) as [text Htext].
    exists text. split; [done|]. revert Htext. unfold moqTemplate.
    intros (objects & _ & Heq)%bind_Some. apply (inj Some) in Heq. subst text.
    eexists _, _. exact (cat_middle 9 5 _).
Qed.

Lemma Mock_qualifier_and_imports_witness :
  exists d m',
    Mock_doc ascending ["Copier"] Ex.demo = (Ok d, m') /\
    (forall pkg st, pkgName st = pkgName Ex.demo ->
       (pkg_Name pkg <> "" ->
        (packageQualifier pkg st).1 = "" <-> pkg_Name pkg = pkgName Ex.demo) /\
       (pkg_Name pkg = pkgName Ex.demo -> packageQualifier pkg st = ("", st)) /\
       (pkg_Name pkg <> pkgName Ex.demo ->
        packageQualifier pkg st =
        (pkg_Name pkg, set_imports st (<[pkg_Path pkg := true]> (imports st))))) /\
    (forall pkg st1 st2,
       pkgName st1 = pkgName Ex.demo -> pkgName st2 = pkgName Ex.demo ->
       (packageQualifier pkg st1).1 = (packageQualifier pkg st2).1) /\
    (forall pname apkg tpkg n iface iiface meth v pkg,
       pkgs Ex.demo !! pname = Some apkg -> ast_Check apkg = inr tpkg ->
       n ∈ ["Copier"] -> tpkg_Scope tpkg !! n = Some iface ->
       obj_Iface iface = Some iiface -> meth ∈ iiface ->
       v ∈ sig_Params (func_Sig meth) ++ sig_Results (func_Sig meth) ->
       pkg ∈ type_pkgs (var_Type v) ->
       pkg_Name pkg <> pkgName Ex.demo -> pkg_Path pkg <> "sync" ->
       count_occ string_dec (doc_Imports d) (pkg_Path pkg) = 1) /\
    (exists text,
       moqTemplate d = Some text /\
       occurs_in
         (Str.cat [
            "import (";
            Str.cat (map (fun path => Str.cat [Str.nl; Str.tab; Str.dq; path; Str.dq])
                         (doc_Imports d));
            Str.nl; ")"; Str.nl])
         text).
Proof.
  eexists _, _. split; [vm_compute; reflexivity|].
  eapply (Mock_qualifier_and_imports ascending ["Copier"] Ex.demo).
  - apply ascending_ok.
  - vm_compute. reflexivity.
Defined.

(** C5, as stated, fails.  An interface that mentions [sync.Locker] gets
    the path ["sync"] twice in the imports of its document; and two
    different packages of the name of the target package both print with
    the empty qualifier, their paths left out of the import set. *)
Lemma Mock_imports_sync_twice :
  (exists d m',
     Mock_doc ascending ["Guard"] Ex.demo = (Ok d, m') /\
     Ex.pkg_sync ∈ type_pkgs (Named (Some Ex.pkg_sync) "Locker") /\
     pkg_Name Ex.pkg_sync <> pkgName Ex.demo /\
     doc_Imports d = ["sync"; "sync"] /\
     count_occ string_dec (doc_Imports d) (pkg_Path Ex.pkg_sync) = 2 /\
     exists text,
       moqTemplate d = Some text /\
       Str.Contains text
         (Str.cat ["import ("; Str.nl; Str.tab; Str.dq; "sync"; Str.dq;
                   Str.nl; Str.tab; Str.dq; "sync"; Str.dq; Str.nl; ")"])
       = true) /\
  (Ex.pkg_util_a <> Ex.pkg_util_b /\
   packageQualifier Ex.pkg_util_a Ex.util = ("", Ex.util) /\
   packageQualifier Ex.pkg_util_b Ex.util = ("", Ex.util)).
Proof.
  split.
  - eexists _, _. split; [vm_compute; reflexivity|].
    split; [apply list_elem_of_here|]. split; [done|]. split; [reflexivity|].
    split; [reflexivity|]. eexists. split; vm_compute; reflexivity.
  - split; [done|]. split; reflexivity.
Qed.

(* ================================================================== *)
(** ** Two runs *)
(* ================================================================== *)

Lemma New_order (ord1 ord2 : MapOrder) parseDir src packageName :
  MapOrder_ok ord1 -> MapOrder_ok ord2 ->
  (forall parsed, parseDir src = inr parsed -> size parsed <= 1) ->
  New ord1 parseDir src packageName = New ord2 parseDir src packageName.
Proof.
  intros H1 H2 Hsize. unfold New.
  destruct (parseDir src) as [err|parsed]; [done|].
  specialize (Hsize parsed eq_refl).
  by rewrite (range_map_small ord1 H1 parsed Hsize),
             (range_map_small ord2 H2 parsed Hsize).
Qed.

Lemma Mock_doc_order (ord1 ord2 : MapOrder) name m :
  MapOrder_ok ord1 -> MapOrder_ok ord2 ->
  size (pkgs m) <= 1 ->
  size (imports (Mock_doc ord1 name m).2) <= 1 ->
  Mock_doc ord1 name m = Mock_doc ord2 name m.
Proof.
  intros H1 H2 Hpkgs. unfold Mock_doc, bind, get, ret.
  rewrite (range_map_small ord1 H1 (pkgs m) Hpkgs),
          (range_map_small ord2 H2 (pkgs m) Hpkgs).
  destruct (for_each _ _ m) as [[Objects|e|msg] m1]; [|done|done].
  cbn [snd]. intros Himports.
  by rewrite (range_map_small ord1 H1 (imports m1) Himports),
             (range_map_small ord2 H2 (imports m1) Himports).
Qed.

Lemma Mock_order (ord1 ord2 : MapOrder) m w name :
  MapOrder_ok ord1 -> MapOrder_ok ord2 ->
  size (pkgs m) <= 1 ->
  size (imports (Mock ord1 m w name).1.1) <= 1 ->
  Mock ord1 m w name = Mock ord2 m w name.
Proof.
  intros H1 H2 Hpkgs. unfold Mock.
  destruct (length name =? 0); [done|]. intros Himports.
  rewrite <- (Mock_doc_order ord1 ord2 name m H1 H2 Hpkgs); [done|].
  destruct (Mock_doc ord1 name m) as [[d|e|msg] m1]; try done.
  by destruct (Execute w d).
Qed.

Lemma Mock_doc_order_imports (ord1 ord2 : MapOrder) name m d1 m1 :
  MapOrder_ok ord1 -> MapOrder_ok ord2 ->
  size (pkgs m) <= 1 ->
  Mock_doc ord1 name m = (Ok d1, m1) ->
  exists d2,
    Mock_doc ord2 name m = (Ok d2, m1) /\
    doc_PackageName d2 = doc_PackageName d1 /\
    doc_Objects d2 = doc_Objects d1 /\
    doc_Imports d2 ≡ₚ doc_Imports d1.
Proof.
  intros H1 H2 Hpkgs (Objects & HO & ->)%Mock_doc_Ok_inv.
  rewrite (range_map_small ord1 H1 (pkgs m) Hpkgs) in HO.
  unfold Mock_doc, bind, get, ret.
  rewrite (range_map_small ord2 H2 (pkgs m) Hpkgs), HO.
  eexists. split; [done|]. cbn [doc_PackageName doc_Objects doc_Imports].
  split; [done|]. split; [done|].
  by rewrite (range_map_Permutation ord1 H1), (range_map_Permutation ord2 H2).
Qed.

Lemma New_pkgs ord parseDir src packageName m parsed :
  New ord parseDir src packageName = inr m -> parseDir src = inr parsed ->
  pkgs m = parsed.
Proof.
  unfold New. intros HNew Hparse. rewrite Hparse in HNew.
  destruct (Str.is_empty _); [done|]. by injection HNew as <-.
Qed.

(** C1.  Two runs of the generator on one directory that holds at most
    one package, with the same package name, writer and interface names,
    whatever the orders in which they walk their maps: [New] returns the
    same; where the first run builds a document, the second builds one
    with the same package name, the same objects in the same order and
    the same imports, in some order; and when the run gathers at most one
    import path, both runs end in the same way with the same text
    written. *)
Theorem generate_order_independent (ord1 ord2 : MapOrder) (parseDir : ParseDir)
    (src packageName : string) (w : Writer) (name : list string) :
  MapOrder_ok ord1 -> MapOrder_ok ord2 ->
  (forall parsed, parseDir src = inr parsed -> size parsed <= 1) ->
  New ord1 parseDir src packageName = New ord2 parseDir src packageName /\
  (forall m d1 m1,
     New ord1 parseDir src packageName = inr m ->
     Mock_doc ord1 name m = (Ok d1, m1) ->
     exists d2,
       Mock_doc ord2 name m = (Ok d2, m1) /\
       doc_PackageName d2 = doc_PackageName d1 /\
       doc_Objects d2 = doc_Objects d1 /\
       doc_Imports d2 ≡ₚ doc_Imports d1) /\
  ((forall m, New ord1 parseDir src packageName = inr m ->
              size (imports (Mock ord1 m w name).1.1) <= 1) ->
   generate ord1 parseDir src packageName w name
   = generate ord2 parseDir src packageName w name).
Proof.
  intros H1 H2 Hpkgs.
  assert (forall m, New ord1 parseDir src packageName = inr m ->
                    size (pkgs m) <= 1) as Hsize.
  { intros m HNew. destruct (parseDir src) as [err|parsed] eqn:Hparse.
    - unfold New in HNew. by rewrite Hparse in HNew.
    - rewrite (New_pkgs _ _ _ _ _ _ HNew Hparse). by apply Hpkgs. }
  split; [by apply New_order|]. split.
  - intros m d1 m1 HNew Hdoc.
    by apply (Mock_doc_order_imports ord1 ord2 name m d1 m1 H1 H2 (Hsize m HNew)).
  - intros Himports. unfold generate.
    rewrite <- (New_order ord1 ord2 parseDir src packageName H1 H2 Hpkgs).
    destruct (New ord1 parseDir src packageName) as [err|m] eqn:HNew; [done|].
    by rewrite (Mock_order ord1 ord2 m w name H1 H2 (Hsize m eq_refl)
                  (Himports m eq_refl)).
Qed.

Lemma generate_order_independent_witness :
  generate ascending Ex.demo_dir "." "" Ex.buffer ["Greeter"]
  = generate descending Ex.demo_dir "." "" Ex.buffer ["Greeter"].
Proof.
  apply (generate_order_independent ascending descending Ex.demo_dir "." ""
           Ex.buffer ["Greeter"]).
  - apply ascending_ok.
  - apply descending_ok.
  - intros parsed Hparsed. injection Hparsed as <-. vm_compute. lia.
  - intros m Hm. vm_compute in Hm. injection Hm as <-. vm_compute. lia.
Defined.

(** C1, as stated, fails: [Copier] imports [context] and [io], and two
    runs that walk the import set in different orders both succeed and
    write different texts. *)
Lemma generate_depends_on_map_order :
  MapOrder_ok ascending /\ MapOrder_ok descending /\
  (generate ascending Ex.demo_dir "." "" Ex.buffer ["Copier"]).2 = Ok tt /\
  (generate descending Ex.demo_dir "." "" Ex.buffer ["Copier"]).2 = Ok tt /\
  w_written (generate ascending Ex.demo_dir "." "" Ex.buffer ["Copier"]).1
  <> w_written (generate descending Ex.demo_dir "." "" Ex.buffer ["Copier"]).1.
Proof.
  split; [apply ascending_ok|]. split; [apply descending_ok|].
  split; [vm_compute; reflexivity|]. split; [vm_compute; reflexivity|].
  apply String.eqb_neq. vm_compute. reflexivity.
Qed.

(* ================================================================== *)
(** * Further properties *)
(* ================================================================== *)

(** ** When [Mock] builds a document *)

(** A loop whose body returns on every element, in every state that the
    loop can reach, returns. *)
Lemma for_each_returns {A B : Type} (f : A -> M B) (l : list A) (m : Mocker) :
  (forall a, steady (f a)) ->
  (forall a m1, a ∈ l -> grows m m1 -> exists b m2, f a m1 = (Ok b, m2)) ->
  exists bs m', for_each f l m = (Ok bs, m').
Proof.
  intros Hf. revert m. induction l as [|a l IH]; intros m Hall; simpl.
  - by exists [], m.
  - destruct (Hall a m) as (b & m1 & Hb); [apply list_elem_of_here | reflexivity |].
    pose proof (Hf a m) as G. rewrite Hb in G. simpl in G.
    destruct (IH m1) as (bs & m2 & Hbs).
    { intros a' m' Ha' G'. apply Hall; [by apply list_elem_of_further|].
      by etrans. }
    exists (b :: bs), m2. unfold bind, ret. by rewrite Hb, Hbs.
Qed.

(** A loop that stops with an error at an element after a run of
    elements that returned. *)
Lemma for_each_stops {A B : Type} (f : A -> M B) (before after : list A)
    (a : A) (m m1 m2 : Mocker) (bs : list B) (e : Error) :
  for_each f before m = (Ok bs, m1) -> f a m1 = (Err e, m2) ->
  for_each f (before ++ a :: after) m = (Err e, m2).
Proof.
  revert m bs. induction before as [|x before IH]; intros m bs; simpl.
  - intros [= <- <-] Ha. unfold bind. by rewrite Ha.
  - intros (b & m' & Hb & (bs' & m'' & Hbs & [= <- <-])%bind_Ok)%bind_Ok Ha.
    unfold bind at 1. rewrite Hb. unfold bind at 1.
    by rewrite (IH _ _ Hbs Ha).
Qed.

Lemma grows_pkgName (m m' : Mocker) : grows m m' -> pkgName m' = pkgName m.
Proof. by intros (_ & _ & ? & _). Qed.

Lemma Mock_method_returns_iff (meth : Func) (m : Mocker) :
  (exists md m', Mock_method meth m = (Ok md, m')) <->
  extractArgs_defined m (func_Sig meth) (sig_Params (func_Sig meth)) = true /\
  extractArgs_defined m (func_Sig meth) (sig_Results (func_Sig meth)) = true.
Proof.
  split.
  - intros (md & m' & (? & ? & _)%Mock_method_Ok_inv). by split.
  - intros [DP DR]. by apply Mock_method_Ok.
Qed.

Lemma Mock_interface_returns_iff (tpkg : TPackage) (n : string) (m : Mocker) :
  (exists o m', Mock_interface tpkg n m = (Ok o, m')) <->
  exists iface iiface,
    tpkg_Scope tpkg !! n = Some iface /\ obj_Iface iface = Some iiface /\
    forall meth, meth ∈ iiface ->
      extractArgs_defined m (func_Sig meth) (sig_Params (func_Sig meth)) = true /\
      extractArgs_defined m (func_Sig meth) (sig_Results (func_Sig meth)) = true.
Proof.
  split.
  - intros (o & m' &
      (iface & iiface & Methods & Hi & Hii & HM & _)%Mock_interface_Ok_inv).
    exists iface, iiface. split; [done|]. split; [done|].
    intros meth (i & Hmeth)%list_elem_of_lookup.
    pose proof (for_each_Ok _ _ _ _ _ steady_Mock_method HM) as HF.
    destruct (Forall2_lookup_l _ _ _ _ _ HF Hmeth)
      as (md & _ & m1 & m2 & G1%grows_pkgName & Hrun & _).
    apply Mock_method_Ok_inv in Hrun as (DP & DR & _).
    by rewrite <- (extractArgs_defined_pkgName m1 m _ _ G1),
               <- (extractArgs_defined_pkgName m1 m _ _ G1).
  - intros (iface & iiface & Hi & Hii & Hall).
    unfold Mock_interface. rewrite Hi, Hii.
    destruct (for_each_returns Mock_method iiface m steady_Mock_method)
      as (Methods & m' & HM).
    { intros meth m1 Hmeth G1%grows_pkgName. apply Mock_method_Ok.
      - rewrite (extractArgs_defined_pkgName m1 m _ _ G1). by apply Hall.
      - rewrite (extractArgs_defined_pkgName m1 m _ _ G1). by apply Hall. }
    unfold bind, ret. rewrite HM. eauto.
Qed.

Lemma Mock_interface_pkgName tpkg n m1 m2 :
  pkgName m1 = pkgName m2 ->
  (exists o m', Mock_interface tpkg n m1 = (Ok o, m')) ->
  exists o m', Mock_interface tpkg n m2 = (Ok o, m').
Proof.
  intros Hn. rewrite !Mock_interface_returns_iff.
  intros (iface & iiface & Hi & Hii & Hall). exists iface, iiface.
  split; [done|]. split; [done|]. intros meth Hmeth.
  rewrite <- !(extractArgs_defined_pkgName m1 m2 _ _ Hn). by apply Hall.
Qed.

Lemma Mock_package_returns_iff (name : list string) (pkg : AstPackage)
    (m : Mocker) :
  (exists objs m', Mock_package name pkg m = (Ok objs, m')) <->
  exists tpkg,
    ast_Check pkg = inr tpkg /\
    forall n, n ∈ name -> exists o m', Mock_interface tpkg n m = (Ok o, m').
Proof.
  split.
  - intros (objs & m' & (tpkg & Hc & Hrun)%Mock_package_Ok_inv).
    exists tpkg. split; [done|]. intros n (i & Hn)%list_elem_of_lookup.
    pose proof (for_each_Ok _ _ _ _ _ (steady_Mock_interface tpkg) Hrun) as HF.
    destruct (Forall2_lookup_l _ _ _ _ _ HF Hn)
      as (o & _ & m1 & m2 & G1%grows_pkgName & Ho & _).
    apply (Mock_interface_pkgName tpkg n m1 m G1). eauto.
  - intros (tpkg & Hc & Hall). unfold Mock_package. rewrite Hc.
    apply for_each_returns; [apply steady_Mock_interface|].
    intros n m1 Hn G1%grows_pkgName.
    apply (Mock_interface_pkgName tpkg n m m1); [done|]. by apply Hall.
Qed.

(** X1.  [Mock] gets as far as the template exactly when every parsed
    package type-checks and, in every one of them, every requested name
    is found, is an interface, and has no method on which [extractArgs]
    runs out of the bounds of a printed type. *)
Theorem Mock_doc_returns_iff (ord : MapOrder) (name : list string) (m : Mocker) :
  MapOrder_ok ord ->
  ((exists d m', Mock_doc ord name m = (Ok d, m')) <->
   forall pname pkg, pkgs m !! pname = Some pkg ->
     exists tpkg,
       ast_Check pkg = inr tpkg /\
       forall n, n ∈ name ->
         exists iface iiface,
           tpkg_Scope tpkg !! n = Some iface /\ obj_Iface iface = Some iiface /\
           forall meth, meth ∈ iiface ->
             extractArgs_defined m (func_Sig meth)
               (sig_Params (func_Sig meth)) = true /\
             extractArgs_defined m (func_Sig meth)
               (sig_Results (func_Sig meth)) = true).
Proof.
  intros Hord. split.
  - intros (d & m' & (Objects & HO & _)%Mock_doc_Ok_inv) pname pkg Hpkg.
    pose proof (range_map_values ord Hord _ _ _ Hpkg) as (i & Hi)%list_elem_of_lookup.
    pose proof (for_each_Ok _ _ _ _ _ (steady_Mock_package name) HO) as HF.
    destruct (Forall2_lookup_l _ _ _ _ _ HF Hi)
      as (objs & _ & m1 & m2 & G1%grows_pkgName & Hrun & _).
    assert (exists objs m', Mock_package name pkg m1 = (Ok objs, m')) as Hret
      by eauto.
    apply Mock_package_returns_iff in Hret as (tpkg & Hc & Hall).
    exists tpkg. split; [done|]. intros n Hn.
    apply Mock_interface_returns_iff, (Mock_interface_pkgName tpkg n m1 m G1).
    by apply Hall.
  - intros Hall.
    destruct (for_each_returns (Mock_package name) (range_map ord (pkgs m)).*2 m
                (steady_Mock_package name)) as (Objects & m' & HO).
    { intros pkg m1 Hpkg G1%grows_pkgName.
      apply Mock_package_returns_iff.
      apply list_elem_of_fmap in Hpkg as ([pname pkg'] & -> & Hin).
      rewrite (range_map_Permutation ord Hord) in Hin.
      apply elem_of_map_to_list in Hin.
      destruct (Hall pname pkg' Hin) as (tpkg & Hc & Hn).
      exists tpkg. split; [done|]. intros n Hin'.
      apply (Mock_interface_pkgName tpkg n m m1); [done|].
      apply Mock_interface_returns_iff. by apply Hn. }
    unfold Mock_doc, bind, get, ret. rewrite HO. eauto.
Qed.

Lemma Mock_doc_returns_iff_witness :
  (exists d m', Mock_doc ascending ["Greeter"; "Copier"] Ex.demo = (Ok d, m')) <->
  forall pname pkg, pkgs Ex.demo !! pname = Some pkg ->
    exists tpkg,
      ast_Check pkg = inr tpkg /\
      forall n, n ∈ ["Greeter"; "Copier"] ->
        exists iface iiface,
          tpkg_Scope tpkg !! n = Some iface /\ obj_Iface iface = Some iiface /\
          forall meth, meth ∈ iiface ->
            extractArgs_defined Ex.demo (func_Sig meth)
              (sig_Params (func_Sig meth)) = true /\
            extractArgs_defined Ex.demo (func_Sig meth)
              (sig_Results (func_Sig meth)) = true.
Proof.
  apply (Mock_doc_returns_iff ascending ["Greeter"; "Copier"] Ex.demo).
  apply ascending_ok.
Defined.

(** X2.  With one parsed package that type-checks: when the names before
    [n] in the request are all mockable and [n] is not found, or is no
    interface, [Mock] returns the error that names [n] (with the type it
    found, if any), whatever names follow, and writes nothing. *)
Theorem Mock_reports_first_bad_name (ord : MapOrder) (m : Mocker) (w : Writer)
    (pname : string) (pkg : AstPackage) (tpkg : TPackage)
    (before after : list string) (n : string) :
  MapOrder_ok ord ->
  pkgs m = {[ pname := pkg ]} ->
  ast_Check pkg = inr tpkg ->
  (forall n', n' ∈ before -> exists o m', Mock_interface tpkg n' m = (Ok o, m')) ->
  tpkg_Scope tpkg !! n ≫= obj_Iface = None ->
  exists m',
    Mock ord m w (before ++ n :: after)
    = (m', w,
       Err match tpkg_Scope tpkg !! n with
           | None => ErrCannotFind n
           | Some iface => ErrNotInterface n (Type_String (obj_Type iface))
           end) /\
    grows m m'.
Proof.
  intros Hord Hpkgs Hc Hbefore Hn.
  destruct (for_each_returns (Mock_interface tpkg) before m
              (steady_Mock_interface tpkg)) as (objs & m1 & Hrun).
  { intros n' m1 Hn' G1%grows_pkgName.
    apply (Mock_interface_pkgName tpkg n' m m1); [done|]. by apply Hbefore. }
  pose proof (steady_for_each _ before (steady_Mock_interface tpkg) m) as G.
  rewrite Hrun in G. simpl in G.
  exists m1. split; [|done].
  unfold Mock. rewrite length_app. simpl.
  replace (length before + S (length after) =? 0) with false
    by (symmetry; apply Nat.eqb_neq; lia).
  unfold Mock_doc, bind at 1, get.
  rewrite (range_map_small ord Hord (pkgs m)), Hpkgs, map_to_list_singleton
    by (rewrite Hpkgs, map_size_singleton; lia).
  simpl. unfold Mock_package. rewrite Hc. unfold bind. cbv beta.
  rewrite (for_each_stops (Mock_interface tpkg) before after n m m1 m1 objs
             (match tpkg_Scope tpkg !! n with
              | None => ErrCannotFind n
              | Some iface => ErrNotInterface n (Type_String (obj_Type iface))
              end) Hrun); [done|].
  unfold Mock_interface. destruct (tpkg_Scope tpkg !! n) as [iface|]; [|done].
  simpl in Hn. by rewrite Hn.
Qed.

Lemma Mock_reports_first_bad_name_witness :
  exists m',
    Mock ascending Ex.demo Ex.buffer (["Greeter"] ++ "T" :: ["Missing"])
    = (m', Ex.buffer,
       Err match tpkg_Scope Ex.demo_types !! "T" with
           | None => ErrCannotFind "T"
           | Some iface => ErrNotInterface "T" (Type_String (obj_Type iface))
           end) /\
    grows Ex.demo m'.
Proof.
  apply (Mock_reports_first_bad_name ascending Ex.demo Ex.buffer "demo"
           Ex.demo_ast Ex.demo_types ["Greeter"] ["Missing"] "T").
  - apply ascending_ok.
  - vm_compute. reflexivity.
  - reflexivity.
  - intros n' ->%list_elem_of_singleton. eexists _, _. vm_compute. reflexivity.
  - vm_compute. reflexivity.
Defined.

(** X3.  A Mocker without parsed packages (a directory with no Go file
    and a package name given to [New]) looks up no name: for any
    non-empty request [Mock] returns no error, leaves the Mocker as it
    is, and writes the package clause, the marker and the import block,
    with no mock in it. *)
Theorem Mock_without_packages (ord : MapOrder) (m : Mocker) (w : Writer)
    (name : list string) :
  MapOrder_ok ord ->
  pkgs m = ∅ -> name <> [] -> w_room w = None ->
  Mock ord m w name
  = (m,
     {| w_written :=
          w_written w +:+
          Str.cat [
            "package "; pkgName m;
            Str.nl;
            Str.nl; "// AUTOGENERATED BY MOQ";
            Str.nl; "// github.com/matryer/moq";
            Str.nl;
            Str.nl; "import (";
            Str.cat (map (fun path => Str.cat [Str.nl; Str.tab; Str.dq; path; Str.dq])
                         ("sync" :: (range_map ord (imports m)).*1));
            Str.nl; ")";
            Str.nl];
        w_room := None |},
     Ok tt).
Proof.
  intros Hord Hpkgs Hname Hroom. unfold Mock.
  destruct name as [|n name]; [done|]. cbn [length Nat.eqb].
  unfold Mock_doc, bind, get, ret.
  rewrite (range_map_small ord Hord (pkgs m)), Hpkgs, map_to_list_empty
    by (rewrite Hpkgs, map_size_empty; lia).
  cbn [fmap list_fmap for_each concat].
  unfold ret, Execute, moqTemplate. cbn [doc_Objects mapM mret option_ret mbind option_bind].
  unfold Write. rewrite Hroom. reflexivity.
Qed.

Lemma Mock_without_packages_witness :
  Mock ascending Ex.util Ex.buffer ["Greeter"]
  = (Ex.util,
     {| w_written :=
          w_written Ex.buffer +:+
          Str.cat [
            "package "; pkgName Ex.util;
            Str.nl;
            Str.nl; "// AUTOGENERATED BY MOQ";
            Str.nl; "// github.com/matryer/moq";
            Str.nl;
            Str.nl; "import (";
            Str.cat (map (fun path => Str.cat [Str.nl; Str.tab; Str.dq; path; Str.dq])
                         ("sync" :: (range_map ascending (imports Ex.util)).*1));
            Str.nl; ")";
            Str.nl];
        w_room := None |},
     Ok tt).
Proof.
  apply (Mock_without_packages ascending Ex.util Ex.buffer ["Greeter"]).
  - apply ascending_ok.
  - reflexivity.
  - discriminate.
  - reflexivity.
Defined.

(** X4.  The object that [Mock] builds for an interface has the requested
    name and one method for each method of the completed interface, in
    the order of the interface: with its name, and with one descriptor
    for each parameter and each result, carrying the printed type of that
    parameter or result. *)
Theorem Mock_interface_methods (tpkg : TPackage) (n : string) (m m' : Mocker)
    (o : obj) :
  Mock_interface tpkg n m = (Ok o, m') ->
  obj_InterfaceName o = n /\
  exists iface iiface,
    tpkg_Scope tpkg !! n = Some iface /\ obj_Iface iface = Some iiface /\
    Forall2
      (fun meth md =>
         method_Name md = func_Name meth /\
         param_Type <$> method_Params md
           = (fun v => (TypeString (var_Type v) packageQualifier m).1)
               <$> sig_Params (func_Sig meth) /\
         param_Type <$> method_Returns md
           = (fun v => (TypeString (var_Type v) packageQualifier m).1)
               <$> sig_Results (func_Sig meth))
      iiface (obj_Methods o).
Proof.
  intros (iface & iiface & Methods & Hi & Hii & HM & ->)%Mock_interface_Ok_inv.
  split; [done|]. exists iface, iiface. split; [done|]. split; [done|].
  cbn [obj_Methods].
  eapply Forall2_impl; [exact (for_each_Ok _ _ _ _ _ steady_Mock_method HM)|].
  intros meth md (m1 & m2 & G1%grows_pkgName & Hrun & _). cbv beta in *.
  apply Mock_method_Ok_inv in Hrun as (_ & _ & ->).
  cbn [method_Name method_Params method_Returns]. split; [done|].
  assert (forall (l : list Var) len fmt,
    param_Type <$> imap (param_of m1 (func_Sig meth) len fmt) l
    = (fun v => (TypeString (var_Type v) packageQualifier m).1) <$> l) as Htypes.
  { intros l len fmt. apply list_eq. intros i.
    rewrite !list_lookup_fmap, list_lookup_imap.
    destruct (l !! i) as [v|]; [|done]. simpl.
    by rewrite (TypeString_text (var_Type v) m1 m G1). }
  by rewrite !Htypes.
Qed.

Lemma Mock_interface_methods_witness :
  obj_InterfaceName Ex.Greeter_obj = "Greeter" /\
  exists iface iiface,
    tpkg_Scope Ex.demo_types !! "Greeter" = Some iface /\
    obj_Iface iface = Some iiface /\
    Forall2
      (fun meth md =>
         method_Name md = func_Name meth /\
         param_Type <$> method_Params md
           = (fun v => (TypeString (var_Type v) packageQualifier Ex.demo).1)
               <$> sig_Params (func_Sig meth) /\
         param_Type <$> method_Returns md
           = (fun v => (TypeString (var_Type v) packageQualifier Ex.demo).1)
               <$> sig_Results (func_Sig meth))
      iiface (obj_Methods Ex.Greeter_obj).
Proof.
  apply (Mock_interface_methods Ex.demo_types "Greeter" Ex.demo Ex.demo
           Ex.Greeter_obj).
  vm_compute. reflexivity.
Defined.

(** ** Variadic parameters *)

(** X5.  For the parameters of a well-formed signature, as [extractArgs]
    returns them: the last parameter of a variadic signature, of type
    [[]E], has the type text [...E] ([TypeString]), the declaration
    [<name> ...E] ([String]) and is passed on as [<name>...]
    ([CallName]); any other parameter has its printed type, the
    declaration [<name> <type>] and is passed on by its name. *)
Theorem extracted_params_render (sig : Signature) (nameFormat : string)
    (m : Mocker) :
  sig_wf sig = true ->
  exists ps m',
    extractArgs sig (sig_Params sig) nameFormat m = (Ok ps, m') /\
    forall k p v, ps !! k = Some p -> sig_Params sig !! k = Some v ->
      if sig_Variadic sig && (k =? length (sig_Params sig) - 1)
      then exists elem,
             var_Type v = Slice elem /\
             param_TypeString p
               = Some ("..." +:+ (TypeString elem packageQualifier m).1) /\
             param_String p
               = Some (param_Name p +:+ " " +:+ "..." +:+
                       (TypeString elem packageQualifier m).1) /\
             param_CallName p = param_Name p +:+ "..."
      else param_TypeString p = Some (param_Type p) /\
           param_String p = Some (param_Name p +:+ " " +:+ param_Type p) /\
           param_CallName p = param_Name p.
Proof.
  intros Hwf. pose proof (sig_wf_defined m sig Hwf) as Hdef.
  destruct (extractArgs_spec sig (sig_Params sig) nameFormat m) as [m' Hrun].
  rewrite Hdef in Hrun. eexists _, m'. split; [exact Hrun|].
  intros k p v. rewrite list_lookup_imap. intros (v' & Hv' & ->)%fmap_Some Hv.
  assert (v' = v) as -> by congruence.
  unfold param_TypeString, param_String, param_CallName, param_TypeString.
  cbn [param_of param_Variadic param_Type param_Name].
  destruct (sig_Variadic sig && (k =? length (sig_Params sig) - 1)) eqn:Elast.
  - apply andb_true_iff in Elast as [Evd ->%Nat.eqb_eq].
    unfold sig_wf in Hwf. rewrite Evd, last_lookup in Hwf.
    replace (pred (length (sig_Params sig)))
      with (length (sig_Params sig) - 1) in Hwf by lia.
    rewrite Hv in Hwf. destruct (var_Type v) as [| |elem| | | |]; try done.
    exists elem. split; [done|]. cbn [TypeString].
    destruct (TypeString elem packageQualifier m) as [s m1]. cbn [fst].
    change ("[]" +:+ s) with (String "[" (String "]" s)).
    cbn [String.prefix]. destruct (ascii_dec "[" "[") as [_|]; [|done].
    destruct (ascii_dec "]" "]") as [_|]; [|done].
    assert (String.prefix "" s = true) as -> by (by destruct s).
    cbn [andb Str.slice_from mbind option_bind]. done.
  - cbn [andb]. done.
Qed.

Lemma extracted_params_render_witness :
  exists ps m',
    extractArgs (func_Sig Ex.Copy) (sig_Params (func_Sig Ex.Copy)) "in%d" Ex.demo
    = (Ok ps, m') /\
    forall k p v, ps !! k = Some p -> sig_Params (func_Sig Ex.Copy) !! k = Some v ->
      if sig_Variadic (func_Sig Ex.Copy)
         && (k =? length (sig_Params (func_Sig Ex.Copy)) - 1)
      then exists elem,
             var_Type v = Slice elem /\
             param_TypeString p
               = Some ("..." +:+ (TypeString elem packageQualifier Ex.demo).1) /\
             param_String p
               = Some (param_Name p +:+ " " +:+ "..." +:+
                       (TypeString elem packageQualifier Ex.demo).1) /\
             param_CallName p = param_Name p +:+ "..."
      else param_TypeString p = Some (param_Type p) /\
           param_String p = Some (param_Name p +:+ " " +:+ param_Type p) /\
           param_CallName p = param_Name p.
Proof.
  apply (extracted_params_render (func_Sig Ex.Copy) "in%d" Ex.demo).
  vm_compute. reflexivity.
Defined.

(** ** [Exported] *)

(** X6.  [Exported] keeps the empty string.  On a string that starts
    with an ASCII byte it changes at most that byte, keeps the length,
    and doing it twice is doing it once; so two names that differ in
    the case of an ASCII first letter get the same field name.  On a
    string that starts with a byte above 0x7F (a letter outside ASCII)
    it puts the three bytes EF BF BD in the place of that byte. *)
Theorem Exported_first_byte (c : ascii) (rest : string) :
  Exported "" = "" /\
  (nat_of_ascii c < 128 ->
   exists c', Exported (String c rest) = String c' rest /\
              Exported (String c' rest) = String c' rest /\
              (97 <= nat_of_ascii c <= 122 ->
               nat_of_ascii c' = nat_of_ascii c - 32) /\
              (~ 97 <= nat_of_ascii c <= 122 -> c' = c)) /\
  (128 <= nat_of_ascii c ->
   Exported (String c rest)
   = String (ascii_of_nat 239)
       (String (ascii_of_nat 191) (String (ascii_of_nat 189) rest))).
Proof.
  split; [done|]. split.
  - intros Hascii. unfold Exported, Str.ToUpper1.
    destruct ((97 <=? nat_of_ascii c) && (nat_of_ascii c <=? 122)) eqn:Elow.
    + apply andb_true_iff in Elow as [Hlo%Nat.leb_le Hhi%Nat.leb_le].
      exists (ascii_of_nat (nat_of_ascii c - 32)).
      assert (nat_of_ascii (ascii_of_nat (nat_of_ascii c - 32))
              = nat_of_ascii c - 32) as Hcode
        by (apply nat_ascii_embedding; lia).
      split; [done|]. rewrite Hcode.
      replace ((97 <=? nat_of_ascii c - 32) && (nat_of_ascii c - 32 <=? 122))
        with false
        by (symmetry; apply andb_false_iff; left; apply Nat.leb_gt; lia).
      replace (nat_of_ascii c - 32 <? 128) with true
        by (symmetry; apply Nat.ltb_lt; lia).
      split; [done|]. split; [done|]. lia.
    + exists c. replace (nat_of_ascii c <? 128) with true
        by (symmetry; by apply Nat.ltb_lt).
      split; [done|]. rewrite Elow. split; [done|]. split; [|done].
      intros [Hlo Hhi]. apply andb_false_iff in Elow as [H%Nat.leb_gt|H%Nat.leb_gt]; lia.
  - intros Hhigh. unfold Exported, Str.ToUpper1.
    replace ((97 <=? nat_of_ascii c) && (nat_of_ascii c <=? 122)) with false
      by (symmetry; apply andb_false_iff; right; apply Nat.leb_gt; lia).
    replace (nat_of_ascii c <? 128) with false
      by (symmetry; apply Nat.ltb_ge; lia).
    done.
Qed.

Lemma Exported_first_byte_witness :
  (exists c', Exported "name" = String c' "ame" /\
              Exported (String c' "ame") = String c' "ame" /\
              (97 <= nat_of_ascii "n" <= 122 ->
               nat_of_ascii c' = nat_of_ascii "n" - 32) /\
              (~ 97 <= nat_of_ascii "n" <= 122 -> c' = "n"%char)).
Proof.
  apply (Exported_first_byte "n" "ame"). vm_compute. lia.
Defined.

(** ** The qualifier *)

(** X7.  Qualifying a package a second time changes nothing and gives
    the same answer, and the import set that two packages leave behind
    does not depend on which of them is qualified first. *)
Theorem packageQualifier_composes (p1 p2 : Package) (m : Mocker) :
  packageQualifier p1 (packageQualifier p1 m).2 =
    ((packageQualifier p1 m).1, (packageQualifier p1 m).2) /\
  (packageQualifier p2 (packageQualifier p1 m).2).2 =
    (packageQualifier p1 (packageQualifier p2 m).2).2.
Proof.
  unfold packageQualifier.
  destruct (String.eqb (pkgName m) (pkg_Name p1)) eqn:E1;
    destruct (String.eqb (pkgName m) (pkg_Name p2)) eqn:E2;
    cbn [fst snd set_imports pkgName imports]; rewrite ?E1, ?E2;
    cbn [fst snd set_imports pkgName imports src pkgs]; try done.
  - split; [|done]. by rewrite insert_insert_eq.
  - split; [by rewrite insert_insert_eq|]. f_equal.
    destruct (decide (pkg_Path p1 = pkg_Path p2)) as [->|Hne]; [done|].
    by apply insert_insert_ne.
Qed.

(** ** The import set after the extraction *)

(** A loop keeps what each run of its body keeps, however it ends. *)
Lemma for_each_keeps {A B : Type} (I : Mocker -> Prop) (f : A -> M B)
    (l : list A) : forall m o m',
  (forall a m1 o1 m2, a ∈ l -> I m1 -> f a m1 = (o1, m2) -> I m2) ->
  I m -> for_each f l m = (o, m') -> I m'.
Proof.
  induction l as [|a l IH]; intros m o m' Hstep HI; simpl.
  - by intros [= _ <-].
  - unfold bind at 1. destruct (f a m) as [o1 m1] eqn:Ha.
    assert (I m1) as HI1 by (eapply Hstep; [apply list_elem_of_here | done..]).
    destruct o1 as [b|e|msg]; [|by intros [= _ <-]..].
    unfold bind at 1. destruct (for_each f l m1) as [o2 m2] eqn:Hl.
    assert (I m2) as HI2.
    { eapply IH; [|exact HI1|exact Hl]. intros a' n1 o' n2 Ha'.
      apply Hstep. by apply list_elem_of_further. }
    destruct o2; by intros [= _ <-].
Qed.

(** Printing a type imports nothing but the packages of another name
    that the type mentions. *)
Lemma TypeString_imports_only (typ : GoType) (m : Mocker) (path : string) :
  path ∈ dom (imports (TypeString typ packageQualifier m).2) ->
  path ∈ dom (imports m) \/
  exists pkg, pkg ∈ type_pkgs typ /\ pkg_Name pkg <> pkgName m /\
              pkg_Path pkg = path.
Proof.
  revert m. induction typ as [| | | | key IHk elem IHe | |[pkg|]]; intros m; simpl;
    try (by left).
  1-3,5: intros Hin; specialize (IHtyp m);
    destruct (TypeString typ _ m); by apply IHtyp.
  - pose proof (TypeString_grows key m) as G1%grows_pkgName.
    specialize (IHk m). destruct (TypeString key _ m) as [k m1]. simpl in *.
    specialize (IHe m1). destruct (TypeString elem _ m1) as [s m2]. simpl in *.
    intros [Hin|(pkg & Hpkg & Hne & Hpath)]%IHe.
    + apply IHk in Hin as [Hin|(pkg & Hpkg & Hne & Hpath)]; [by left|].
      right. exists pkg. split; [|done]. apply elem_of_app. by left.
    + right. exists pkg. split; [apply elem_of_app; by right|].
      split; [congruence | done].
  - unfold writePackage, packageQualifier.
    destruct (String.eqb_spec (pkgName m) (pkg_Name pkg)) as [E|E]; simpl;
      [by left|].
    rewrite dom_insert. intros [->%elem_of_singleton|Hin]%elem_of_union;
      [|by left].
    right. exists pkg. split; [apply list_elem_of_here|]. by split.
Qed.

Lemma extractArgs_from_imports_only sig listLen nameFormat rest (path : string) :
  forall ii m o m',
  extractArgs_from sig listLen nameFormat ii rest m = (o, m') ->
  path ∈ dom (imports m') ->
  path ∈ dom (imports m) \/
  exists v pkg, v ∈ rest /\ pkg ∈ type_pkgs (var_Type v) /\
                pkg_Name pkg <> pkgName m /\ pkg_Path pkg = path.
Proof.
  induction rest as [|p rest IH]; intros ii m o m'; simpl.
  - intros [= _ <-]. by left.
  - unfold bind at 1, lift.
    pose proof (TypeString_imports_only (var_Type p) m path) as Hts.
    pose proof (TypeString_grows (var_Type p) m) as G1%grows_pkgName.
    destruct (TypeString (var_Type p) packageQualifier m) as [typename m1].
    simpl in Hts, G1.
    assert (path ∈ dom (imports m1) ->
            path ∈ dom (imports m) \/
            exists v pkg, v ∈ p :: rest /\ pkg ∈ type_pkgs (var_Type v) /\
                          pkg_Name pkg <> pkgName m /\ pkg_Path pkg = path) as H1.
    { intros [?|(pkg & ? & ? & ?)]%Hts; [by left|]. right. exists p, pkg.
      split; [apply list_elem_of_here | done]. }
    unfold bind at 1.
    destruct ((if sig_Variadic sig && (ii =? listLen - 1)
               then has_slice_prefix typename else ret false) m1)
      as [o1 m2] eqn:Hv.
    assert (m2 = m1) as ->.
    { revert Hv. unfold has_slice_prefix.
      destruct (_ && _); [destruct (Str.slice_to 2 typename)|];
        by intros [= _ <-]. }
    destruct o1 as [variadic|e|msg]; [|by intros [= _ <-]..].
    unfold bind at 1.
    destruct (extractArgs_from sig listLen nameFormat (S ii) rest m1)
      as [o2 m3] eqn:Hrec.
    intros Hret Hin. assert (m' = m3) as -> by (destruct o2; by injection Hret).
    destruct (IH _ _ _ _ Hrec Hin) as [Hin1|(v & pkg & Hv' & Hpkg & Hne & Hpath)].
    + by apply H1.
    + right. exists v, pkg. split; [by apply list_elem_of_further|].
      split; [done|]. split; [congruence | done].
Qed.

Lemma Mock_method_imports_only meth m o m' (path : string) :
  Mock_method meth m = (o, m') ->
  path ∈ dom (imports m') ->
  path ∈ dom (imports m) \/
  exists v pkg,
    v ∈ sig_Params (func_Sig meth) ++ sig_Results (func_Sig meth) /\
    pkg ∈ type_pkgs (var_Type v) /\
    pkg_Name pkg <> pkgName m /\ pkg_Path pkg = path.
Proof.
  unfold Mock_method, bind, extractArgs.
  destruct (extractArgs_from _ _ "in%d" 0 _ m) as [o1 m1] eqn:HP.
  pose proof (steady_extractArgs_from (func_Sig meth)
    (length (sig_Params (func_Sig meth))) "in%d" 0 (sig_Params (func_Sig meth)) m)
    as G1%grows_pkgName. rewrite HP in G1. simpl in G1.
  assert (path ∈ dom (imports m1) ->
          path ∈ dom (imports m) \/
          exists v pkg,
            v ∈ sig_Params (func_Sig meth) ++ sig_Results (func_Sig meth) /\
            pkg ∈ type_pkgs (var_Type v) /\
            pkg_Name pkg <> pkgName m /\ pkg_Path pkg = path) as H1.
  { intros Hin.
    destruct (extractArgs_from_imports_only _ _ _ _ path _ _ _ _ HP Hin)
      as [?|(v & pkg & ? & ? & ? & ?)]; [by left|].
    right. exists v, pkg. split; [apply elem_of_app; by left | done]. }
  destruct o1 as [Params|e|msg]; [|by intros [= _ <-]..].
  destruct (extractArgs_from _ _ "out%d" 0 _ m1) as [o2 m2] eqn:HR.
  intros Hret Hin. assert (m' = m2) as -> by (destruct o2; by injection Hret).
  destruct (extractArgs_from_imports_only _ _ _ _ path _ _ _ _ HR Hin)
    as [?|(v & pkg & ? & ? & ? & ?)]; [by apply H1|].
  right. exists v, pkg. split; [apply elem_of_app; by right|].
  split; [done|]. split; [congruence | done].
Qed.

(** X8.  When the extraction has returned on a request, the import set
    of the Mocker holds the paths it held before, the paths of the
    packages of another name than the target's that a signature of a
    requested interface mentions, and no other path. *)
Theorem Mock_doc_imports_exactly (ord : MapOrder) (name : list string)
    (m m' : Mocker) (d : doc) (path : string) :
  MapOrder_ok ord ->
  Mock_doc ord name m = (Ok d, m') ->
  (path ∈ dom (imports m') <->
   path ∈ dom (imports m) \/
   exists pkg, mentioned m name pkg /\ pkg_Path pkg = path).
Proof.
  intros Hord Hdoc. split.
  - apply Mock_doc_Ok_inv in Hdoc as (Objects & HO & _).
    revert HO.
    apply (for_each_keeps
      (fun m1 => pkgName m1 = pkgName m /\
         (path ∈ dom (imports m1) ->
          path ∈ dom (imports m) \/
          exists pkg, mentioned m name pkg /\ pkg_Path pkg = path))
      (Mock_package name) _ m (Ok Objects) m'); [|by split; [|left]].
    intros apkg m1 o1 m2 Hapkg [E1 I1]. unfold Mock_package.
    apply list_elem_of_fmap in Hapkg as ([pname apkg'] & -> & Hin).
    rewrite (range_map_Permutation ord Hord) in Hin.
    apply elem_of_map_to_list in Hin. simpl.
    destruct (ast_Check apkg') as [err|tpkg] eqn:Hc; [by intros [= _ <-]|].
    apply (for_each_keeps
      (fun m1 => pkgName m1 = pkgName m /\
         (path ∈ dom (imports m1) ->
          path ∈ dom (imports m) \/
          exists pkg, mentioned m name pkg /\ pkg_Path pkg = path)));
      [|by split].
    intros n m3 o3 m4 Hn [E3 I3]. unfold Mock_interface.
    destruct (tpkg_Scope tpkg !! n) as [iface|] eqn:Hi; [|by intros [= _ <-]].
    destruct (obj_Iface iface) as [iiface|] eqn:Hii; [|by intros [= _ <-]].
    unfold bind.
    destruct (for_each Mock_method iiface m3) as [o5 m5] eqn:HM.
    intros Hret. assert (m4 = m5) as -> by (destruct o5; by injection Hret).
    revert HM.
    apply (for_each_keeps
      (fun m1 => pkgName m1 = pkgName m /\
         (path ∈ dom (imports m1) ->
          path ∈ dom (imports m) \/
          exists pkg, mentioned m name pkg /\ pkg_Path pkg = path)));
      [|by split].
    intros meth m6 o6 m7 Hmeth [E6 I6] Hrun.
    pose proof (steady_Mock_method meth m6) as G%grows_pkgName.
    rewrite Hrun in G. simpl in G. split; [congruence|].
    intros [Hin6|(v & pkg & Hv & Hpkg & Hne & Hpath)]
      %(Mock_method_imports_only _ _ _ _ _ Hrun); [by apply I6|].
    right. exists pkg. split; [|done]. split; [congruence|].
    by exists pname, apkg', tpkg, n, iface, iiface, meth, v.
  - intros [Hin|(pkg & (Hne & pname & apkg & tpkg & n & iface & iiface & meth &
      v & Hp & Hc & Hn & Hi & Hii & Hmeth & Hv & Hpkg) & <-)].
    + pose proof (steady_Mock_doc ord name m) as (_&_&_&G).
      rewrite Hdoc in G. by apply G.
    + by eapply (Mock_doc_imports ord name m d m').
Qed.

Lemma Mock_doc_imports_exactly_witness :
  "io" ∈ dom (imports (Mock_doc ascending ["Copier"] Ex.demo).2) <->
  "io" ∈ dom (imports Ex.demo) \/
  exists pkg, mentioned Ex.demo ["Copier"] pkg /\ pkg_Path pkg = "io".
Proof.
  eapply (Mock_doc_imports_exactly ascending ["Copier"] Ex.demo).
  - apply ascending_ok.
  - vm_compute. reflexivity.
Defined.

(** ** When the template renders *)

Lemma slice_from_2_is_Some (s : string) :
  is_Some (Str.slice_from 2 s) <-> 2 <= String.length s.
Proof.
  split; [|apply slice_from_2_Some].
  destruct s as [|a [|b s]]; simpl; [by intros [] | by intros [] | lia].
Qed.

Lemma param_TypeString_is_Some (p : param) :
  is_Some (param_TypeString p) <->
  (param_Variadic p = true -> 2 <= String.length (param_Type p)).
Proof.
  unfold param_TypeString. destruct (param_Variadic p).
  - rewrite <- slice_from_2_is_Some.
    destruct (Str.slice_from 2 (param_Type p)); simpl; split; eauto.
  - split; [done | by eexists].
Qed.

Lemma param_String_is_Some (p : param) :
  is_Some (param_String p) <-> is_Some (param_TypeString p).
Proof.
  unfold param_String. destruct (param_TypeString p); simpl; split;
    eauto; by intros [].
Qed.

Lemma method_renders_iff (md : method) :
  method_renders md <->
  forall p, p ∈ method_Params md ++ method_Returns md ->
    param_Variadic p = true -> 2 <= String.length (param_Type p).
Proof.
  unfold method_renders, Arglist, ReturnArglist.
  assert (forall {A} (o : option A) (f : A -> string),
            is_Some (x ← o; Some (f x)) <-> is_Some o) as Hbind.
  { intros A [x|] f; simpl; split; eauto; by intros []. }
  rewrite !Hbind, !mapM_is_Some, !Forall_forall. split.
  - intros [HP HR] p [Hp|Hp]%elem_of_app.
    + apply param_TypeString_is_Some, param_String_is_Some. by apply HP.
    + apply param_TypeString_is_Some. by apply HR.
  - intros H. split; intros p Hp.
    + apply param_String_is_Some, param_TypeString_is_Some, H, elem_of_app.
      by left.
    + apply param_TypeString_is_Some, H, elem_of_app. by right.
Qed.

Lemma tmpl_obj_renders (o : obj) :
  is_Some (tmpl_obj o) -> Forall method_renders (obj_Methods o).
Proof.
  unfold tmpl_obj. intros [t (usage & Hu & _)%bind_Some].
  apply mapM_Some_1 in Hu. apply Forall_forall. intros md (i & Hi)%list_elem_of_lookup.
  destruct (Forall2_lookup_l _ _ _ _ _ Hu Hi) as (u & _ & Hmd).
  revert Hmd. unfold tmpl_usage.
  intros (args & Ha & (rets & Hr & _)%bind_Some)%bind_Some.
  split; by eexists.
Qed.

(** X9.  The template renders a document exactly when no descriptor in
    it, of a parameter or of a result, is marked variadic with a type of
    fewer than two bytes; on such a descriptor [TypeString] slices out
    of bounds. *)
Theorem moqTemplate_renders_iff (d : doc) :
  is_Some (moqTemplate d) <->
  forall o md p,
    o ∈ doc_Objects d -> md ∈ obj_Methods o ->
    p ∈ method_Params md ++ method_Returns md ->
    param_Variadic p = true -> 2 <= String.length (param_Type p).
Proof.
  split.
  - unfold moqTemplate. intros [text (objects & Ho & _)%bind_Some] o md p Hin Hmd.
    apply mapM_Some_1 in Ho. apply list_elem_of_lookup in Hin as [i Hi].
    destruct (Forall2_lookup_l _ _ _ _ _ Ho Hi) as (t & _ & Ht).
    assert (is_Some (tmpl_obj o)) as HF%tmpl_obj_renders by eauto.
    rewrite Forall_forall in HF. by apply method_renders_iff, HF.
  - intros H. apply moqTemplate_is_Some, Forall_forall. intros o Ho.
    apply Forall_forall. intros md Hmd. apply method_renders_iff.
    intros p Hp. by apply (H o md p).
Qed.

(** ** Generated names *)

Lemma decimal_inj (j k : nat) : Str.decimal j = Str.decimal k -> j = k.
Proof.
  unfold Str.decimal. intros H.
  assert (forall n, Nat.to_uint n <> Decimal.Nil) as Hnn.
  { intros n. rewrite <- (DecimalNat.Unsigned.of_to n) at 1.
    rewrite DecimalNat.Unsigned.to_of. apply DecimalFacts.unorm_nonnil. }
  apply DecimalNat.Unsigned.to_uint_inj.
  apply (f_equal NilZero.uint_of_string) in H.
  rewrite !NilZero.usu in H by apply Hnn. by injection H.
Qed.

Lemma append_inj_l (s t1 t2 : string) : s +:+ t1 = s +:+ t2 -> t1 = t2.
Proof. apply (inj (String.append s)). Qed.

(** X10.  In a method that [Mock] extracts, two parameters at different
    positions that were declared without a name get different names, and
    so do two such results; no generated name is empty. *)
Theorem Mock_method_generated_names_differ (meth : Func) (m m' : Mocker)
    (md : method) :
  Mock_method meth m = (Ok md, m') ->
  (forall j k vj vk pj pk,
     j <> k ->
     sig_Params (func_Sig meth) !! j = Some vj ->
     sig_Params (func_Sig meth) !! k = Some vk ->
     var_Name vj = "" -> var_Name vk = "" ->
     method_Params md !! j = Some pj -> method_Params md !! k = Some pk ->
     param_Name pj <> param_Name pk /\ param_Name pj <> "") /\
  (forall j k vj vk pj pk,
     j <> k ->
     sig_Results (func_Sig meth) !! j = Some vj ->
     sig_Results (func_Sig meth) !! k = Some vk ->
     var_Name vj = "" -> var_Name vk = "" ->
     method_Returns md !! j = Some pj -> method_Returns md !! k = Some pk ->
     param_Name pj <> param_Name pk /\ param_Name pj <> "").
Proof.
  intros (_ & _ & ->)%Mock_method_Ok_inv.
  cbn [method_Params method_Returns]. split.
  - intros j k vj vk pj pk Hjk Hj Hk Ej Ek.
    rewrite !list_lookup_imap, Hj, Hk. intros [= <-] [= <-].
    cbn [param_of param_Name]. rewrite Ej, Ek. cbn [Str.is_empty].
    rewrite !Sprintf_in. split; [|done].
    intros H%append_inj_l%decimal_inj. lia.
  - intros j k vj vk pj pk Hjk Hj Hk Ej Ek.
    rewrite !list_lookup_imap, Hj, Hk. intros [= <-] [= <-].
    cbn [param_of param_Name]. rewrite Ej, Ek. cbn [Str.is_empty].
    rewrite !Sprintf_out. split; [|done].
    intros H%append_inj_l%decimal_inj. lia.
Qed.

Lemma Mock_method_generated_names_differ_witness :
  exists md m',
    Mock_method Ex.Copy Ex.demo = (Ok md, m') /\
    (forall j k vj vk pj pk,
       j <> k ->
       sig_Params (func_Sig Ex.Copy) !! j = Some vj ->
       sig_Params (func_Sig Ex.Copy) !! k = Some vk ->
       var_Name vj = "" -> var_Name vk = "" ->
       method_Params md !! j = Some pj -> method_Params md !! k = Some pk ->
       param_Name pj <> param_Name pk /\ param_Name pj <> "") /\
    (forall j k vj vk pj pk,
       j <> k ->
       sig_Results (func_Sig Ex.Copy) !! j = Some vj ->
       sig_Results (func_Sig Ex.Copy) !! k = Some vk ->
       var_Name vj = "" -> var_Name vk = "" ->
       method_Returns md !! j = Some pj -> method_Returns md !! k = Some pk ->
       param_Name pj <> param_Name pk /\ param_Name pj <> "").
Proof.
  eexists _, _. split; [vm_compute; reflexivity|].
  eapply (Mock_method_generated_names_differ Ex.Copy Ex.demo).
  vm_compute. reflexivity.
Defined.

(** ** The struct and the end of a method body *)

Lemma moqTemplate_obj (d : doc) (text : string) (o : obj) :
  moqTemplate d = Some text -> o ∈ doc_Objects d ->
  exists t, tmpl_obj o = Some t /\ occurs_in t text.
Proof.
  unfold moqTemplate. intros (objects & Hobjs & Heq)%bind_Some Ho.
  apply (inj Some) in Heq. subst text.
  destruct (mapM_occurs_in _ _ _ _ Hobjs Ho) as (t & Ht & Hoc).
  exists t. split; [done|]. eapply occurs_in_trans; [exact Hoc|]. find_piece.
Qed.

(** X11.  In the text rendered for a document, the implementation of
    every method ends with the unlocking of its call log, then the call
    of the function field with the arguments of [ArgCallList], then the
    closing brace: the function is called after the lock is released.
    The call is returned exactly when [ReturnArglist] is not empty, and
    it is empty for a method without results. *)
Theorem moqTemplate_call_after_unlock (d : doc) (text : string) (o : obj)
    (md : method) :
  moqTemplate d = Some text -> o ∈ doc_Objects d -> md ∈ obj_Methods o ->
  exists rets,
    ReturnArglist md = Some rets /\
    (method_Returns md = [] -> rets = "") /\
    occurs_in
      (Str.cat [
         Str.nl; Str.tab; "mock.CallsTo.lock"; method_Name md; ".Unlock()";
         (if negb (Str.is_empty rets)
          then Str.cat [Str.nl; Str.tab; "return mock."; method_Name md; "Func(";
                        ArgCallList md; ")"]
          else Str.cat [Str.nl; Str.tab; "mock."; method_Name md; "Func(";
                        ArgCallList md; ")"]);
         Str.nl; "}"; Str.nl])
      text.
Proof.
  intros Htext Ho Hmd.
  destruct (moqTemplate_method d text o md Htext Ho Hmd) as (impl & Himpl & Hoc).
  revert Himpl. unfold tmpl_method.
  intros (args & Hargs & (rets & Hrets & Heq)%bind_Some)%bind_Some.
  apply (inj Some) in Heq. subst impl.
  exists rets. split; [done|]. split.
  - intros Hnone. revert Hrets. unfold ReturnArglist. rewrite Hnone.
    by intros [= <-].
  - eapply occurs_in_trans; [|exact Hoc].
    eexists _, _. exact (cat_middle 56 9 _).
Qed.

Lemma moqTemplate_call_after_unlock_witness :
  exists rets,
    ReturnArglist Ex.Greet_method = Some rets /\
    (method_Returns Ex.Greet_method = [] -> rets = "") /\
    occurs_in
      (Str.cat [
         Str.nl; Str.tab; "mock.CallsTo.lock"; method_Name Ex.Greet_method;
           ".Unlock()";
         (if negb (Str.is_empty rets)
          then Str.cat [Str.nl; Str.tab; "return mock.";
                        method_Name Ex.Greet_method; "Func(";
                        ArgCallList Ex.Greet_method; ")"]
          else Str.cat [Str.nl; Str.tab; "mock."; method_Name Ex.Greet_method;
                        "Func("; ArgCallList Ex.Greet_method; ")"]);
         Str.nl; "}"; Str.nl])
      (default "" (moqTemplate Ex.Greeter_doc)).
Proof.
  apply (moqTemplate_call_after_unlock Ex.Greeter_doc
           (default "" (moqTemplate Ex.Greeter_doc)) Ex.Greeter_obj
           Ex.Greet_method).
  - vm_compute. reflexivity.
  - apply list_elem_of_here.
  - apply list_elem_of_here.
Defined.

(** X12.  In the text rendered for a document, the struct of every
    object has, for every method: the function field [<N>Func] with the
    argument list and the result list of the method; and in [CallsTo] a
    mutex [lock<N>] of its own and the slice [<N>] of records, with one
    field per parameter, named by [Exported] and of the type as it was
    printed (a variadic parameter is recorded as the slice it is). *)
Theorem moqTemplate_struct_members (d : doc) (text : string) (o : obj)
    (md : method) :
  moqTemplate d = Some text -> o ∈ doc_Objects d -> md ∈ obj_Methods o ->
  exists args rets,
    Arglist md = Some args /\ ReturnArglist md = Some rets /\
    occurs_in
      (Str.cat [
         Str.nl; Str.tab; method_Name md; "Func func("; args; ") "; rets;
         Str.nl])
      text /\
    occurs_in
      (Str.cat [
         Str.nl; Str.tab; Str.tab; "lock"; method_Name md;
           " sync.Mutex // protects "; method_Name md;
         Str.nl; Str.tab; Str.tab; "// "; method_Name md;
           " holds details about calls to the "; method_Name md; " method.";
         Str.nl; Str.tab; Str.tab; method_Name md; " []struct {";
         Str.cat
           (map (fun p =>
                   Str.cat [
                     Str.nl; Str.tab; Str.tab; Str.tab; "// ";
                       Exported (param_Name p); " is the "; param_Name p;
                       " argument value.";
                     Str.nl; Str.tab; Str.tab; Str.tab;
                       Exported (param_Name p); " "; param_Type p])
                (method_Params md));
         Str.nl; Str.tab; Str.tab; "}"])
      text.
Proof.
  intros Htext Ho Hmd.
  destruct (moqTemplate_obj d text o Htext Ho) as (t & Ht & Hoc).
  revert Ht. unfold tmpl_obj.
  intros (usage & _ & (fields & Hf &
    (methods & _ & Heq)%bind_Some)%bind_Some)%bind_Some.
  apply (inj Some) in Heq. subst t.
  destruct (mapM_occurs_in _ _ _ _ Hf Hmd) as (f & Hfield & Hocf).
  revert Hfield. unfold tmpl_field.
  intros (args & Hargs & (rets & Hrets & Heq)%bind_Some)%bind_Some.
  apply (inj Some) in Heq. subst f.
  exists args, rets. split; [done|]. split; [done|]. split.
  - eapply occurs_in_trans; [|exact Hoc].
    eapply occurs_in_trans; [|eapply occurs_in_trans; [exact Hocf|find_piece]].
    eexists _, _. exact (cat_middle 7 8 _).
  - eapply occurs_in_trans; [|exact Hoc].
    assert (occurs_in (tmpl_calls md) (Str.cat (map tmpl_calls (obj_Methods o))))
      as Hcalls by (apply occurs_in_cat, list_elem_of_fmap; eauto).
    eapply occurs_in_trans; [exact Hcalls|]. find_piece.
Qed.

Lemma moqTemplate_struct_members_witness :
  exists args rets,
    Arglist Ex.Greet_method = Some args /\
    ReturnArglist Ex.Greet_method = Some rets /\
    occurs_in
      (Str.cat [
         Str.nl; Str.tab; method_Name Ex.Greet_method; "Func func("; args; ") ";
           rets;
         Str.nl])
      (default "" (moqTemplate Ex.Greeter_doc)) /\
    occurs_in
      (Str.cat [
         Str.nl; Str.tab; Str.tab; "lock"; method_Name Ex.Greet_method;
           " sync.Mutex // protects "; method_Name Ex.Greet_method;
         Str.nl; Str.tab; Str.tab; "// "; method_Name Ex.Greet_method;
           " holds details about calls to the "; method_Name Ex.Greet_method;
           " method.";
         Str.nl; Str.tab; Str.tab; method_Name Ex.Greet_method; " []struct {";
         Str.cat
           (map (fun p =>
                   Str.cat [
                     Str.nl; Str.tab; Str.tab; Str.tab; "// ";
                       Exported (param_Name p); " is the "; param_Name p;
                       " argument value.";
                     Str.nl; Str.tab; Str.tab; Str.tab;
                       Exported (param_Name p); " "; param_Type p])
                (method_Params Ex.Greet_method));
         Str.nl; Str.tab; Str.tab; "}"])
      (default "" (moqTemplate Ex.Greeter_doc)).
Proof.
  apply (moqTemplate_struct_members Ex.Greeter_doc
           (default "" (moqTemplate Ex.Greeter_doc)) Ex.Greeter_obj
           Ex.Greet_method).
  - vm_compute. reflexivity.
  - apply list_elem_of_here.
  - apply list_elem_of_here.
Defined.

(** ** [New] with a package name, and one run from end to end *)

(** X13.  [New] with a package name of its own never walks the parsed
    packages: the name is taken as it is, also when no parsed package
    bears it, the only error is the parser's, and the result does not
    depend on the order of the map. *)
Theorem New_named_package (ord ord' : MapOrder) (parseDir : ParseDir)
    (dir packageName : string) :
  packageName <> "" ->
  New ord parseDir dir packageName = New ord' parseDir dir packageName /\
  match parseDir dir with
  | inl err => New ord parseDir dir packageName = inl err
  | inr parsed =>
      exists m,
        New ord parseDir dir packageName = inr m /\
        src m = dir /\ pkgs m = parsed /\ pkgName m = packageName /\
        imports m = ∅
  end.
Proof.
  intros Hname. unfold New.
  destruct packageName as [|c rest]; [done|]. cbn [Str.is_empty].
  split; [done|].
  destruct (parseDir dir) as [err|parsed]; [done|]. by eexists.
Qed.

Lemma New_named_package_witness :
  New ascending Ex.demo_dir "." "other"
    = New descending Ex.demo_dir "." "other" /\
  match Ex.demo_dir "." with
  | inl err => New ascending Ex.demo_dir "." "other" = inl err
  | inr parsed =>
      exists m,
        New ascending Ex.demo_dir "." "other" = inr m /\
        src m = "." /\ pkgs m = parsed /\ pkgName m = "other" /\
        imports m = ∅
  end.
Proof.
  apply (New_named_package ascending descending Ex.demo_dir "." "other").
  discriminate.
Defined.

Lemma string_take_prefix (n : nat) (s : string) :
  exists rest, s = string_take n s +:+ rest.
Proof.
  unfold string_take. revert n.
  induction s as [|c s IH]; intros [|n]; simpl; try by eexists.
  destruct (IH n) as [rest Hrest]. exists rest.
  rewrite append_cons. by rewrite <- Hrest.
Qed.

(** X14.  [Mock] uses its writer for the rendered text and nothing
    else.  Against a call with a writer that never fails, a call with
    any writer leaves the same Mocker, ends the same way unless its
    writer fails, and has written the first bytes of the same text: all
    of them when it ends the same way. *)
Theorem Mock_writer_prefix (ord : MapOrder) (m : Mocker) (w : Writer)
    (name : list string) (m1 m0 : Mocker) (w1 w0 : Writer)
    (out1 out0 : Outcome unit) :
  Mock ord m w name = (m1, w1, out1) ->
  Mock ord m {| w_written := w_written w; w_room := None |} name
    = (m0, w0, out0) ->
  m1 = m0 /\
  (out1 = out0 \/ (out1 = Err ErrWrite /\ out0 = Ok tt)) /\
  exists first rest,
    w_written w1 = w_written w +:+ first /\
    w_written w0 = w_written w +:+ first +:+ rest /\
    (out1 = out0 -> rest = "").
Proof.
  unfold Mock. destruct (length name =? 0).
  { intros [= <- <- <-] [= <- <- <-]. split; [done|]. split; [by left|].
    exists "", "". by rewrite !append_nil_r. }
  destruct (Mock_doc ord name m) as [[d|e|msg] m'] eqn:Hdoc.
  - unfold Execute. destruct (moqTemplate d) as [text|] eqn:Htext.
    + unfold Write. cbn [w_room w_written].
      destruct (w_room w) as [room|].
      * destruct (String.length text <=? room).
        -- intros [= <- <- <-] [= <- <- <-]. split; [done|]. split; [by left|].
           exists text, "". by rewrite !append_nil_r.
        -- intros [= <- <- <-] [= <- <- <-]. split; [done|]. split; [by right|].
           destruct (string_take_prefix room text) as [rest Hrest].
           exists (string_take room text), rest. cbn [w_written].
           split; [done|]. split; [by rewrite <- Hrest|done].
      * intros [= <- <- <-] [= <- <- <-]. split; [done|]. split; [by left|].
        exists text, "". by rewrite !append_nil_r.
    + intros [= <- <- <-] [= <- <- <-]. split; [done|]. split; [by left|].
      exists "", "". by rewrite !append_nil_r.
  - intros [= <- <- <-] [= <- <- <-]. split; [done|]. split; [by left|].
    exists "", "". by rewrite !append_nil_r.
  - intros [= <- <- <-] [= <- <- <-]. split; [done|]. split; [by left|].
    exists "", "". by rewrite !append_nil_r.
Qed.

Lemma Mock_writer_prefix_witness :
  (Mock ascending Ex.demo (Ex.pipe 5) ["Greeter"]).1.1
    = (Mock ascending Ex.demo Ex.buffer ["Greeter"]).1.1 /\
  ((Mock ascending Ex.demo (Ex.pipe 5) ["Greeter"]).2
     = (Mock ascending Ex.demo Ex.buffer ["Greeter"]).2 \/
   ((Mock ascending Ex.demo (Ex.pipe 5) ["Greeter"]).2 = Err ErrWrite /\
    (Mock ascending Ex.demo Ex.buffer ["Greeter"]).2 = Ok tt)) /\
  exists first rest,
    w_written (Mock ascending Ex.demo (Ex.pipe 5) ["Greeter"]).1.2
      = w_written (Ex.pipe 5) +:+ first /\
    w_written (Mock ascending Ex.demo Ex.buffer ["Greeter"]).1.2
      = w_written (Ex.pipe 5) +:+ first +:+ rest /\
    ((Mock ascending Ex.demo (Ex.pipe 5) ["Greeter"]).2
       = (Mock ascending Ex.demo Ex.buffer ["Greeter"]).2 -> rest = "").
Proof.
  apply (Mock_writer_prefix ascending Ex.demo (Ex.pipe 5) ["Greeter"]).
  - vm_compute. reflexivity.
  - vm_compute. reflexivity.
Defined.

Lemma moqTemplate_package_clause (d : doc) (text : string) :
  moqTemplate d = Some text ->
  exists rest, text = "package " +:+ doc_PackageName d +:+ Str.nl +:+ rest.
Proof.
  unfold moqTemplate. intros (objects & _ & Heq)%bind_Some.
  apply (inj Some) in Heq. subst text.
  rewrite (cat_cons "package "), (cat_cons (doc_PackageName d)), (cat_cons Str.nl).
  by eexists.
Qed.

(** X15.  One run that ends without an error has added to the writer a
    text that starts with the package clause of the Mocker that [New]
    made: of the package name given to [New], when one was given. *)
Theorem generate_package_clause (ord : MapOrder) (parseDir : ParseDir)
    (dir packageName : string) (w w' : Writer) (name : list string) :
  generate ord parseDir dir packageName w name = (w', Ok tt) ->
  exists m rest,
    New ord parseDir dir packageName = inr m /\
    (packageName <> "" -> pkgName m = packageName) /\
    w_written w' = w_written w +:+ "package " +:+ pkgName m +:+ Str.nl +:+ rest.
Proof.
  unfold generate.
  destruct (New ord parseDir dir packageName) as [err|m] eqn:HNew; [done|].
  destruct (Mock ord m w name) as [[m1 w1] out] eqn:HMock.
  intros [= -> ->]. revert HMock. unfold Mock.
  destruct (length name =? 0); [done|].
  destruct (Mock_doc ord name m) as [[d|e|msg] m'] eqn:Hdoc; [|done..].
  destruct (Mock_doc_Ok_inv _ _ _ _ _ Hdoc) as (Objects & _ & Hd).
  unfold Execute.
  destruct (moqTemplate d) as [text|] eqn:Htext; [|done].
  destruct (moqTemplate_package_clause d text Htext) as [rest Hrest].
  rewrite Hd in Hrest. cbn [doc_PackageName] in Hrest.
  assert (pkgName m = packageName \/ packageName = "") as Hname.
  { revert HNew. unfold New. destruct (parseDir dir); [done|].
    destruct packageName; [by right|]. cbn [Str.is_empty].
    intros [= <-]. by left. }
  intros HMock. exists m, rest. split; [done|].
  split; [by destruct Hname|]. rewrite <- Hrest.
  revert HMock. unfold Write. destruct (w_room w) as [room|].
  - destruct (String.length text <=? room); [|done]. by intros [= _ <-].
  - by intros [= _ <-].
Qed.

Lemma generate_package_clause_witness :
  exists m rest,
    New ascending Ex.demo_dir "." "" = inr m /\
    ("" <> "" -> pkgName m = "") /\
    w_written (generate ascending Ex.demo_dir "." "" Ex.buffer ["Greeter"]).1
      = w_written Ex.buffer +:+ "package " +:+ pkgName m +:+ Str.nl +:+ rest.
Proof.
  apply (generate_package_clause ascending Ex.demo_dir "." "" Ex.buffer
           (generate ascending Ex.demo_dir "." "" Ex.buffer ["Greeter"]).1
           ["Greeter"]).
  vm_compute. reflexivity.
Defined.
